(** * Property match recommender: the scoring, explanation and selection core
    of [streamlit_app.py], embedded function by function.

    Numbers.  A Python [float] is modelled as an extended rational: a finite
    value (a rational, arithmetic on it is exact), the two infinities, or
    not-a-number.  Comparisons follow IEEE 754 as Python exposes it: every
    ordered comparison with not-a-number is [False].

    Strings hold the UTF-8 bytes of a Python [str].  The search text and
    the identifiers are read as code points; letter case, used on the
    clauses of a reason only, is that of the ASCII range. *)

From Stdlib Require Import QArith Qround Lqa Sorted Permutation Ascii String.
From Stdlib Require Import DecimalString DecimalPos DecimalZ.
From stdpp Require Import gmap strings list.

Local Open Scope Q_scope.

(** ** Floats *)

Inductive float : Type :=
  | NaN
  | NInf
  | Fin (q : Q)
  | PInf.

Definition isnan (x : float) : bool :=
  match x with NaN => true | _ => false end.

(** [x <= y] on floats. *)
Definition fle (x y : float) : bool :=
  match x, y with
  | NaN, _ | _, NaN => false
  | NInf, _ => true
  | _, PInf => true
  | Fin a, Fin b => Qle_bool a b
  | Fin _, NInf => false
  | PInf, _ => false
  end.

(** [x >= y], [x < y], [x > y] and [x == y]. *)
Definition fge (x y : float) : bool := fle y x.
Definition flt (x y : float) : bool := fle x y && negb (fle y x).
Definition fgt (x y : float) : bool := flt y x.
Definition feq (x y : float) : bool := fle x y && fle y x.

(** [x * y]: zero times an infinity is not-a-number. *)
Definition Qsgn (q : Q) : Z := Z.sgn (Qnum q).

Definition inf_of_sign (s : Z) : float :=
  match s with
  | Z0 => NaN
  | Zpos _ => PInf
  | Zneg _ => NInf
  end.

Definition fsgn (x : float) : Z :=
  match x with
  | NaN => 0%Z
  | NInf => (-1)%Z
  | Fin q => Qsgn q
  | PInf => 1%Z
  end.

Definition fmul (x y : float) : float :=
  match x, y with
  | NaN, _ | _, NaN => NaN
  | Fin a, Fin b => Fin (a * b)
  | _, _ => inf_of_sign (fsgn x * fsgn y)
  end.

(** [x + y]: the sum of opposite infinities is not-a-number. *)
Definition fadd (x y : float) : float :=
  match x, y with
  | NaN, _ | _, NaN => NaN
  | Fin a, Fin b => Fin (a + b)
  | PInf, NInf | NInf, PInf => NaN
  | PInf, _ | _, PInf => PInf
  | NInf, _ | _, NInf => NInf
  end.

(** Python's built-in [sum] over a list of floats. *)
Definition py_sum (l : list float) : float := fold_left fadd l (Fin 0).

(** ** Cell values and [safe_float]

    A cell of a raw record is any Python object.  [float(x)] either returns a
    float (for a float, an integer, a numeric string ...) or raises (for any
    other string, [None], a container ...); a cell is classified by that
    outcome.  [Numeric f]: [float(x)] returns [f].  [NonNumeric s]:
    [float(x)] raises, and [s] is the text of [x]. *)

Inductive cell : Type :=
  | Numeric (f : float)
  | NonNumeric (s : string).

(** [float(x)], with [None] for a raised exception. *)
Definition py_float (x : cell) : option float :=
  match x with
  | Numeric f => Some f
  | NonNumeric _ => None
  end.

(** [safe_float(x, default)]: try [float(x)], on any exception [default]. *)
Definition safe_float (x : cell) (default : float) : float :=
  match py_float x with
  | Some f => f
  | None => default
  end.

(** [np.maximum] and [np.minimum]: both propagate not-a-number. *)
Definition np_maximum (a b : float) : float :=
  if isnan a || fgt a b then a else b.

Definition np_minimum (a b : float) : float :=
  if isnan a || flt a b then a else b.

(** [np.clip(x, lo, hi)] is [minimum(maximum(x, lo), hi)]. *)
Definition np_clip (x lo hi : float) : float :=
  np_minimum (np_maximum x lo) hi.

(** [clamp01(x)]. *)
Definition clamp01 (x : cell) : float :=
  let x := safe_float x (Fin 0.0) in
  np_clip x (Fin 0.0) (Fin 1.0).

Example clamp01_half : clamp01 (Numeric (Fin 0.5)) = Fin 0.5.
Proof. reflexivity. Qed.

Example clamp01_text : clamp01 (NonNumeric "abc") = Fin 0.0.
Proof. reflexivity. Qed.

Example clamp01_nan : clamp01 (Numeric NaN) = NaN.
Proof. reflexivity. Qed.

Example clamp01_big : clamp01 (Numeric (Fin 7)) = Fin 1.0.
Proof. reflexivity. Qed.

(** ** Records as [pd.Series] and the weight table *)

(** [row.get(key, default)] on a Series: the cell under [key], or [default]
    when the Series has no such label. *)
Definition row_get (row : gmap string cell) (key : string) (dflt : cell) : cell :=
  default dflt (row !! key).

(** The weight table [W], in the order of its literal. *)
Definition W_items : list (string * float) :=
  [ ("price", Fin 0.30); ("bed", Fin 0.18); ("bath", Fin 0.10);
    ("type", Fin 0.12); ("cond", Fin 0.08); ("year", Fin 0.07);
    ("size", Fin 0.07); ("loc", Fin 0.08) ].

Definition W : gmap string float := list_to_map W_items.

#[global] Instance float_inhabited : Inhabited float := populate NaN.

(** [COMP_COLS]. *)
Definition COMP_COLS : list string :=
  [ "s_price"; "s_bed"; "s_bath"; "s_type"; "s_cond"; "s_year"; "s_size"; "s_loc" ].

(** ** [DataFrame.sort_values]

    The source sorts with [sort_values(col, ascending=...)] and leaves
    [kind] at the library's default, for which the library promises a
    rearrangement of the rows that is ordered on the column, rows whose key
    is not-a-number last; it makes no promise on the order of rows with
    equal keys.  The sort is therefore taken as an interface with exactly
    that contract. *)

(** [precedes asc a b]: a row with key [a] may stand before one with key
    [b]. *)
Definition precedes (asc : bool) (a b : float) : bool :=
  isnan b || (negb (isnan a) && (if asc then fle a b else fle b a)).

Class PandasSort : Type := {
  sort_by : forall {A : Type}, (A -> float) -> bool -> list A -> list A;
  sort_by_perm : forall (A : Type) (key : A -> float) (asc : bool) (l : list A),
    Permutation (sort_by key asc l) l;
  sort_by_sorted : forall (A : Type) (key : A -> float) (asc : bool) (l : list A),
    StronglySorted (fun a b => precedes asc (key a) (key b) = true)
                   (sort_by key asc l)
}.

(** One sort that meets the contract: insertion from the right, which keeps
    rows with equal keys in their input order. *)
Fixpoint insert_by {A : Type} (key : A -> float) (asc : bool) (x : A)
    (l : list A) : list A :=
  match l with
  | [] => [x]
  | y :: l' =>
      if precedes asc (key x) (key y) then x :: y :: l'
      else y :: insert_by key asc x l'
  end.

Definition insertion_sort {A : Type} (key : A -> float) (asc : bool)
    (l : list A) : list A :=
  foldr (insert_by key asc) [] l.

(** ** [compute_weighted_contributions] *)

(** The dict [parts], in insertion order. *)
Definition contribution_parts (row : gmap string cell) : list (string * float) :=
  [ ("price", fmul (W !!! "price") (clamp01 (row_get row "s_price" (Numeric (Fin 0.5)))));
    ("bed",   fmul (W !!! "bed")   (clamp01 (row_get row "s_bed" (Numeric (Fin 0.5)))));
    ("bath",  fmul (W !!! "bath")  (clamp01 (row_get row "s_bath" (Numeric (Fin 0.5)))));
    ("type",  fmul (W !!! "type")  (clamp01 (row_get row "s_type" (Numeric (Fin 0.5)))));
    ("cond",  fmul (W !!! "cond")  (clamp01 (row_get row "s_cond" (Numeric (Fin 0.5)))));
    ("year",  fmul (W !!! "year")  (clamp01 (row_get row "s_year" (Numeric (Fin 0.5)))));
    ("size",  fmul (W !!! "size")  (clamp01 (row_get row "s_size" (Numeric (Fin 0.5)))));
    ("loc",   fmul (W !!! "loc")   (clamp01 (row_get row "s_loc" (Numeric (Fin 0.5))))) ].

(** The frame of (component, weighted_contribution) rows, sorted on the
    second column, descending. *)
Definition compute_weighted_contributions `{PandasSort}
    (row : gmap string cell) : list (string * float) :=
  sort_by snd false (contribution_parts row).

(** ** [generate_reason] *)

(** The dict [mapping], in insertion order. *)
Definition mapping : list (string * string) :=
  [ ("s_price", "price fit");
    ("s_bed", "bedroom match");
    ("s_bath", "bathroom match");
    ("s_type", "property type match");
    ("s_cond", "condition match");
    ("s_year", "modernity/year match");
    ("s_size", "size/spaciousness match");
    ("s_loc", "location intent match") ].

(** ASCII case mapping and [str.capitalize]. *)
Definition ascii_upper (c : ascii) : ascii :=
  let n := N_of_ascii c in
  if ((97 <=? n) && (n <=? 122))%N then ascii_of_N (n - 32) else c.

Definition ascii_lower (c : ascii) : ascii :=
  let n := N_of_ascii c in
  if ((65 <=? n) && (n <=? 90))%N then ascii_of_N (n + 32) else c.

Fixpoint str_lower (s : string) : string :=
  match s with
  | EmptyString => EmptyString
  | String c s' => String (ascii_lower c) (str_lower s')
  end.

Definition capitalize (s : string) : string :=
  match s with
  | EmptyString => EmptyString
  | String c s' => String (ascii_upper c) (str_lower s')
  end.

(** [bullets] after the budget-gate step. *)
Definition budget_gate (row : gmap string cell) : float :=
  safe_float (row_get row "g_budget" (Numeric NaN)) NaN.

Definition bullets_budget (row : gmap string cell) : list string :=
  let bullets := [] in
  let g := budget_gate row in
  if negb (isnan g) then
    if fge g (Fin 0.98) then bullets ++ ["within budget"]
    else if fge g (Fin 0.85) then bullets ++ ["slightly above budget (small penalty)"]
    else bullets ++ ["over budget (strong penalty)"]
  else bullets.

(** The list [strong]: labels of the components whose clamped value is at
    least 0.80, in the order of [mapping]. *)
Definition strong (row : gmap string cell) : list string :=
  map snd
    (List.filter
       (fun kl => fge (clamp01 (row_get row (fst kl) (Numeric (Fin 0.5)))) (Fin 0.80))
       mapping).

(** [bullets] after the strong-components step. *)
Definition bullets_strong (row : gmap string cell) : list string :=
  let bullets := bullets_budget row in
  match strong row with
  | [] => bullets
  | _ :: _ => bullets ++ [("strong on: " +:+ String.concat ", " (firstn 3 (strong row)))%string]
  end.

(** The list [weak]: clamped value at most 0.35. *)
Definition weak (row : gmap string cell) : list string :=
  map snd
    (List.filter
       (fun kl => fle (clamp01 (row_get row (fst kl) (Numeric (Fin 0.5)))) (Fin 0.35))
       mapping).

(** [bullets] at the end of the function. *)
Definition bullets_final (row : gmap string cell) : list string :=
  let bullets := bullets_strong row in
  match weak row with
  | [] => bullets
  | _ :: _ =>
      if (length bullets <? 2)%nat
      then bullets ++ [("trade-offs: " +:+ String.concat ", " (firstn 2 (weak row)))%string]
      else bullets
  end.

Definition fallback : string := "Balanced match across constraints and preferences.".

Definition generate_reason (row : gmap string cell) : string :=
  match bullets_final row with
  | [] => fallback
  | bullets => (capitalize (String.concat " • " bullets) +:+ ".")%string
  end.

Definition example_row : gmap string cell :=
  list_to_map
    [ ("g_budget", Numeric (Fin 0.99)); ("s_price", Numeric (Fin 0.95));
      ("s_bed", Numeric (Fin 0.40)); ("MatchScore", Numeric (Fin 92.5)) ].

Example generate_reason_example :
  generate_reason example_row = "Within budget • strong on: price fit.".
Proof. vm_compute. reflexivity. Qed.

Example generate_reason_empty :
  generate_reason ∅ = fallback.
Proof. vm_compute. reflexivity. Qed.

Example contribution_parts_empty :
  map snd (contribution_parts ∅) =
  [ Fin (0.30 * 0.5); Fin (0.18 * 0.5); Fin (0.10 * 0.5); Fin (0.12 * 0.5);
    Fin (0.08 * 0.5); Fin (0.07 * 0.5); Fin (0.07 * 0.5); Fin (0.08 * 0.5) ].
Proof. vm_compute. reflexivity. Qed.

(** ** Frames

    After [ensure_columns] the numeric columns hold floats (not-a-number for
    a value that did not parse) and the categorical and identifier columns
    hold strings.  A frame is the list of its rows, in row order; the row
    labels, which every step below resets, are not kept. *)

Record record : Type := {
  User_ID : string;
  Property_ID : string;
  Location : string;
  Type_ : string;
  Condition : string;
  Bedrooms : float;
  Bathrooms : float;
  Size : float;
  Year_Built : float;
  Price : float;
  MatchScore : float;
  g_budget : float
}.

(** [series.isin(values)] on a column of strings. *)
Definition isin (v : string) (values : list string) : bool :=
  existsb (String.eqb v) values.

(** A list used as a condition: true when it has an element. *)
Definition truthy {A : Type} (l : list A) : bool :=
  match l with [] => false | _ :: _ => true end.

(** [apply_filters]. *)
Definition apply_filters (df : list record)
    (loc_filter type_filter cond_filter : list string)
    (price_range size_range : option (float * float))
    (min_score min_budget_gate : float) : list record :=
  let out := df in
  let out := if truthy loc_filter
             then List.filter (fun r => isin (Location r) loc_filter) out else out in
  let out := if truthy type_filter
             then List.filter (fun r => isin (Type_ r) type_filter) out else out in
  let out := if truthy cond_filter
             then List.filter (fun r => isin (Condition r) cond_filter) out else out in
  let out := match price_range with
             | Some pr =>
                 List.filter (fun r => fge (Price r) (fst pr) && fle (Price r) (snd pr)) out
             | None => out
             end in
  let out := match size_range with
             | Some sr =>
                 List.filter (fun r => fge (Size r) (fst sr) && fle (Size r) (snd sr)) out
             | None => out
             end in
  let out := List.filter (fun r => fge (MatchScore r) min_score) out in
  let out := List.filter (fun r => fge (g_budget r) min_budget_gate) out in
  out.

(** The conjunction of the predicates a row has to meet: a categorical one
    counts only when its list has an element, a range only when it is given,
    the two thresholds always. *)
Definition passes (loc_filter type_filter cond_filter : list string)
    (price_range size_range : option (float * float))
    (min_score min_budget_gate : float) (r : record) : bool :=
  (negb (truthy loc_filter) || isin (Location r) loc_filter) &&
  (negb (truthy type_filter) || isin (Type_ r) type_filter) &&
  (negb (truthy cond_filter) || isin (Condition r) cond_filter) &&
  match price_range with
  | Some pr => fge (Price r) (fst pr) && fle (Price r) (snd pr)
  | None => true
  end &&
  match size_range with
  | Some sr => fge (Size r) (fst sr) && fle (Size r) (snd sr)
  | None => true
  end &&
  fge (MatchScore r) min_score &&
  fge (g_budget r) min_budget_gate.

(** A row for examples: identifier, score and budget gate given, the rest
    fixed. *)
Definition mk_record (pid : string) (score gate : float) : record :=
  {| User_ID := "1"; Property_ID := pid; Location := "Austin"; Type_ := "Condo";
     Condition := "Good"; Bedrooms := Fin 2; Bathrooms := Fin 1;
     Size := Fin 900; Year_Built := Fin 2001; Price := Fin 250000;
     MatchScore := score; g_budget := gate |}.

(** ** Sorting, search and top-K (the script's ranking steps) *)

(** The keys of [sort_col_map]. *)
Inductive sort_choice : Type :=
  | MatchScore_desc
  | Price_asc
  | Price_desc
  | Size_desc
  | Year_Built_desc
  | Budget_gate_desc.

(** [sort_col_map]: the column and the [ascending] flag of a choice. *)
Definition sort_col_map (c : sort_choice) : (record -> float) * bool :=
  match c with
  | MatchScore_desc => (MatchScore, false)
  | Price_asc => (Price, true)
  | Price_desc => (Price, false)
  | Size_desc => (Size, false)
  | Year_Built_desc => (Year_Built, false)
  | Budget_gate_desc => (g_budget, false)
  end.

(** Text.  A Python [str] is a sequence of code points; a string of this
    file holds its UTF-8 bytes, and [codepoints] reads the code points
    back.  A byte that is no part of a well-formed sequence is read as the
    code point U+DC00 plus the byte, so that the reading is total. *)
Definition continuation (b : ascii) : bool :=
  ((128 <=? N_of_ascii b) && (N_of_ascii b <? 192))%N.

Definition low6 (b : ascii) : N := (N_of_ascii b - 128)%N.

Definition stray (b : ascii) : N := (56320 + N_of_ascii b)%N.

Fixpoint utf8_decode (bs : list ascii) : list N :=
  match bs with
  | [] => []
  | b0 :: r0 =>
      let n0 := N_of_ascii b0 in
      if (n0 <? 128)%N then n0 :: utf8_decode r0
      else if ((192 <=? n0) && (n0 <? 224))%N then
        match r0 with
        | b1 :: r1 =>
            if continuation b1
            then ((n0 - 192) * 64 + low6 b1)%N :: utf8_decode r1
            else stray b0 :: utf8_decode r0
        | _ => stray b0 :: utf8_decode r0
        end
      else if ((224 <=? n0) && (n0 <? 240))%N then
        match r0 with
        | b1 :: b2 :: r2 =>
            if continuation b1 && continuation b2
            then ((n0 - 224) * 4096 + low6 b1 * 64 + low6 b2)%N
                   :: utf8_decode r2
            else stray b0 :: utf8_decode r0
        | _ => stray b0 :: utf8_decode r0
        end
      else if ((240 <=? n0) && (n0 <? 248))%N then
        match r0 with
        | b1 :: b2 :: b3 :: r3 =>
            if continuation b1 && continuation b2 && continuation b3
            then ((n0 - 240) * 262144 + low6 b1 * 4096 + low6 b2 * 64
                  + low6 b3)%N :: utf8_decode r3
            else stray b0 :: utf8_decode r0
        | _ => stray b0 :: utf8_decode r0
        end
      else stray b0 :: utf8_decode r0
  end.

Definition codepoints (s : string) : list N :=
  utf8_decode (list_ascii_of_string s).

(** The UTF-8 bytes of a code point. *)
Definition utf8_encode_one (c : N) : list ascii :=
  (if c <? 128 then [ascii_of_N c]
   else if c <? 2048 then
     [ascii_of_N (192 + c / 64); ascii_of_N (128 + c mod 64)]
   else if (56448 <=? c) && (c <? 56576) then [ascii_of_N (c - 56320)]
   else if c <? 65536 then
     [ascii_of_N (224 + c / 4096); ascii_of_N (128 + (c / 64) mod 64);
      ascii_of_N (128 + c mod 64)]
   else
     [ascii_of_N (240 + (c / 262144) mod 8);
      ascii_of_N (128 + (c / 4096) mod 64);
      ascii_of_N (128 + (c / 64) mod 64); ascii_of_N (128 + c mod 64)])%N.

Definition utf8_encode (l : list N) : list ascii :=
  flat_map utf8_encode_one l.

(** The code point of an ASCII character. *)
Definition cp (c : ascii) : N := N_of_ascii c.

(** [str.isspace] on one character: the whitespace of Unicode, that is
    U+0009 to U+000D, U+001C to U+0020, U+0085, U+00A0, U+1680, U+2000 to
    U+200A, U+2028, U+2029, U+202F, U+205F and U+3000. *)
Definition isspace (c : N) : bool :=
  (((9 <=? c) && (c <=? 13)) || ((28 <=? c) && (c <=? 32)) ||
   (c =? 133) || (c =? 160) || (c =? 5760) ||
   ((8192 <=? c) && (c <=? 8202)) || (c =? 8232) || (c =? 8233) ||
   (c =? 8239) || (c =? 8287) || (c =? 12288))%N.

(** [str.strip()]: whitespace is dropped from both ends. *)
Fixpoint lstrip (s : list N) : list N :=
  match s with
  | c :: s' => if isspace c then lstrip s' else s
  | [] => []
  end.

Definition strip_chars (s : list N) : list N :=
  rev (lstrip (rev (lstrip s))).

Definition strip (s : string) : string :=
  string_of_list_ascii (utf8_encode (strip_chars (codepoints s))).

(** [Series.str.contains(pat)] is called with the library's defaults, so
    [pat] is a regular expression, compiled once and searched for in each
    value.  The patterns modelled are the alternatives, separated by bars,
    of sequences of literal characters, dots, carets and dollars.  A
    closing bracket and a closing brace are literal; an opening brace is
    literal unless digits, or digits, a comma and digits (either run of
    digits possibly empty, but not both runs and the comma missing), and a
    closing brace follow it, in which case it opens a repeat count.  For a
    pattern with a repeat ([*], [+], [?], a repeat count), a group, a
    character class or a backslash the result is [None]: such a pattern is
    not modelled (the library gives it its meaning, or raises on it), and
    nothing is stated about it. *)
Inductive atom : Type :=
  | Lit (c : N)
  | Dot
  | Bol
  | Eol.

Inductive token : Type :=
  | TAtom (a : atom)
  | TBar
  | TOther.

Definition is_digit (c : N) : bool := ((48 <=? c) && (c <=? 57))%N.

Fixpoint skip_digits (l : list N) : list N :=
  match l with
  | c :: l' => if is_digit c then skip_digits l' else l
  | [] => []
  end.

(** Whether the text after an opening brace makes it a repeat count. *)
Definition opens_repeat (rest : list N) : bool :=
  match rest with
  | c :: _ =>
      if (c =? cp "}")%N then false
      else
        let r1 := skip_digits rest in
        let r2 := match r1 with
                  | d :: r => if (d =? cp ",")%N then skip_digits r else r1
                  | [] => r1
                  end in
        match r2 with
        | e :: _ => (e =? cp "}")%N
        | [] => false
        end
  | [] => false
  end.

Definition token_of (c : N) (rest : list N) : token :=
  if (c =? cp ".")%N then TAtom Dot
  else if (c =? cp "^")%N then TAtom Bol
  else if (c =? cp "$")%N then TAtom Eol
  else if (c =? cp "|")%N then TBar
  else if existsb (N.eqb c) (map cp (list_ascii_of_string "*+?[\()")) then TOther
  else if (c =? cp "{")%N then
    if opens_repeat rest then TOther else TAtom (Lit c)
  else TAtom (Lit c).

(** The alternatives of a pattern, each a sequence of atoms. *)
Fixpoint re_compile (pat : list N) : option (list (list atom)) :=
  match pat with
  | [] => Some [[]]
  | c :: pat' =>
      match token_of c pat', re_compile pat' with
      | TAtom a, Some (alt :: alts) => Some ((a :: alt) :: alts)
      | TAtom a, Some [] => Some [[a]]
      | TBar, Some alts => Some ([] :: alts)
      | _, _ => None
      end
  end.

(** A literal matches itself and the dot every character but the newline;
    both take one character. *)
Definition atom_matches (a : atom) (c : N) : bool :=
  match a with
  | Lit d => (d =? c)%N
  | Dot => negb (c =? 10)%N
  | Bol | Eol => false
  end.

(** The dollar holds at the end of the text and before a newline that ends
    the text. *)
Definition at_end (s : list N) : bool :=
  match s with
  | [] => true
  | [c] => (c =? 10)%N
  | _ => false
  end.

(** A sequence matched at the head of [s]; [at_start] says whether the
    head of [s] is the start of the text, where alone the caret holds. *)
Fixpoint match_here (p : list atom) (at_start : bool) (s : list N) : bool :=
  match p with
  | [] => true
  | Bol :: p' => at_start && match_here p' at_start s
  | Eol :: p' => at_end s && match_here p' at_start s
  | a :: p' =>
      match s with
      | [] => false
      | c :: s' => atom_matches a c && match_here p' false s'
      end
  end.

Fixpoint search_from (alts : list (list atom)) (at_start : bool)
    (s : list N) : bool :=
  existsb (fun p => match_here p at_start s) alts ||
  match s with
  | [] => false
  | _ :: s' => search_from alts false s'
  end.

(** [regex.search(x) is not None]. *)
Definition re_search (alts : list (list atom)) (s : list N) : bool :=
  search_from alts true s.

(** The search step: skipped when the stripped search text is empty. *)
Definition search_step (search_pid : string) (filtered : list record)
    : option (list record) :=
  match strip_chars (codepoints search_pid) with
  | [] => Some filtered
  | pat =>
      match re_compile pat with
      | Some p =>
          Some (List.filter (fun r => re_search p (codepoints (Property_ID r)))
                            filtered)
      | None => None
      end
  end.

(** [frame.head(n)]. *)
Definition head (n : nat) (df : list record) : list record := firstn n df.

(** Sort, then search, then keep the first [top_k] rows: [display_df]. *)
Definition rank `{PandasSort} (filtered : list record) (choice : sort_choice)
    (search_pid : string) (top_k : nat) : option (list record) :=
  let '(sort_col, ascending) := sort_col_map choice in
  let filtered := sort_by sort_col ascending filtered in
  match search_step search_pid filtered with
  | Some filtered => Some (head top_k filtered)
  | None => None
  end.

(** Frames for examples: three rows with distinct scores, and the rows A, B
    and C of the stability scenario. *)
Definition example_frame : list record :=
  [ mk_record "101" (Fin 90) (Fin 1); mk_record "202" (Fin 80) (Fin 1);
    mk_record "310" (Fin 70) (Fin 1) ].

Definition tie_frame : list record :=
  [ mk_record "A" (Fin 90) (Fin 1); mk_record "B" (Fin 90) (Fin 1);
    mk_record "C" (Fin 80) (Fin 1) ].

(** ** [format_money] *)

(** [round(x)] on a float: the nearest integer, a tie going to the even
    one. *)
Definition py_round (q : Q) : Z :=
  let f := Qfloor q in
  match Qcompare (q - inject_Z f)%Q (1 # 2)%Q with
  | Lt => f
  | Gt => (f + 1)%Z
  | Eq => if Z.even f then f else (f + 1)%Z
  end.

(** [str(n)] and [int(s)] on decimal numerals. *)
Definition py_str_int (n : Z) : string :=
  NilZero.string_of_int (Z.to_int n).

Definition py_int_of_str (s : string) : option Z :=
  option_map Z.of_int (NilZero.int_of_string s).

(** The [,] of a format specification, on the digits of a numeral, last
    digit first: a comma after every third digit that has a digit after
    it. *)
Fixpoint group3 (ds : list ascii) : list ascii :=
  match ds with
  | a :: b :: c :: ((_ :: _) as rest) => a :: b :: c :: ","%char :: group3 rest
  | _ => ds
  end.

Definition with_commas_digits (d : string) : string :=
  string_of_list_ascii (rev (group3 (rev (list_ascii_of_string d)))).

Definition with_commas (s : string) : string :=
  match s with
  | String "-" d => String "-" (with_commas_digits d)
  | _ => with_commas_digits s
  end.

(** [format_money(x)]; [None] stands for the [OverflowError] that
    [round] raises on an infinity. *)
Definition format_money (x : cell) : option string :=
  let x := safe_float x NaN in
  if isnan x then Some "—"%string
  else
    match x with
    | Fin q => Some (with_commas (py_str_int (py_round q)))
    | _ => None
    end.

Definition remove_commas (s : string) : string :=
  string_of_list_ascii
    (List.filter (fun c => negb (Ascii.eqb c ",")) (list_ascii_of_string s)).

Example format_money_example :
  format_money (Numeric (Fin 1234567.5)) = Some "1,234,568"%string /\
  format_money (Numeric (Fin (-1234.5))) = Some "-1,234"%string /\
  format_money (Numeric (Fin 999)) = Some "999"%string /\
  format_money (NonNumeric "n/a") = Some "—"%string /\
  format_money (Numeric PInf) = None.
Proof. vm_compute. repeat split. Qed.

(** ** [to_intish], the identifier columns of [ensure_columns]

    [float] applied to a text is Python's own reading of a number; it is
    taken as a parameter, [None] for a text it rejects. *)

(** [int(x)] on a float: the integer part, towards zero. *)
Definition py_int (q : Q) : Z := Z.quot (Qnum q) (Zpos (Qden q)).


(** [float] on a decimal integer numeral, the other texts that [float]
    reads (a fraction, an exponent, a plus sign, blanks around the numeral,
    [inf], [nan]) left aside: the integer is rounded to the nearest double,
    that is to 53 significant bits, a tie going to the even one, and from
    2^1024 on the result is an infinity. *)
Definition round_half_even (a d : Z) : Z :=
  let q := (a / d)%Z in
  match (2 * (a mod d) ?= d)%Z with
  | Lt => q
  | Gt => (q + 1)%Z
  | Eq => if Z.even q then q else (q + 1)%Z
  end.

Definition binary64_of_Z (n : Z) : float :=
  let a := Z.abs n in
  let e := Z.max 0 (Z.log2 a - 52) in
  let v := (round_half_even a (2 ^ e) * 2 ^ e)%Z in
  if (2 ^ 1024 <=? v)%Z then (if (n <? 0)%Z then NInf else PInf)
  else Fin (inject_Z (Z.sgn n * v)).

Definition float_of_integer_numeral (s : string) : option float :=
  option_map binary64_of_Z (py_int_of_str s).

Example float_of_integer_numeral_examples :
  float_of_integer_numeral "0101" = Some (Fin 101) /\
  float_of_integer_numeral "-7" = Some (Fin (-7)) /\
  float_of_integer_numeral "9007199254740992" = Some (Fin 9007199254740992) /\
  float_of_integer_numeral "9007199254740993" = Some (Fin 9007199254740992) /\
  float_of_integer_numeral "9007199254740995" = Some (Fin 9007199254740996) /\
  float_of_integer_numeral "abc" = None.
Proof. vm_compute. repeat split. Qed.

(** ** The script around the ranking steps *)




(** ** [ensure_columns], the numeric and the similarity columns

    The function is followed on one row: a column the frame lacks is a
    label the row lacks.  Its first loop makes the seven numeric columns
    numeric, its second loop makes the eight similarity columns numeric,
    neutral where there is no number, and clipped.  Its last two loops turn
    the categorical and identifier columns into text and do not touch the
    columns of the first two. *)

(** [pd.to_numeric(..., errors="coerce")] on one cell: the number of the
    cell, not-a-number for a cell that has none (the library is taken to
    find a number in the cells in which [float] finds one). *)
Definition to_numeric (x : cell) : float :=
  match py_float x with
  | Some f => f
  | None => NaN
  end.

(** [Series.fillna(value)] on one cell. *)
Definition fillna (value x : float) : float :=
  if isnan x then value else x.

(** [Series.clip(lower, upper)] on one cell: a cell that is not-a-number
    or at least [lower] stays, then one that is not-a-number or at most
    [upper] stays, both tests made on the cell as it came. *)
Definition series_clip (x lower upper : float) : float :=
  let mask := isnan x in
  let result := if mask || fge x lower then x else lower in
  let result := if mask || fle x upper then result else upper in
  result.

(** The columns of the first loop. *)
Definition NUMERIC_COLS : list string :=
  [ "MatchScore"; "Price"; "Size"; "Bedrooms"; "Bathrooms"; "Year Built";
    "g_budget" ].

(** The body of the first loop, on the cell of the column if there is one:
    an absent column is created as not-a-number. *)
Definition norm_numeric (o : option cell) : float :=
  to_numeric (default (Numeric NaN) o).

(** The body of the second loop: an absent column is created as 0.5. *)
Definition norm_similarity (o : option cell) : float :=
  series_clip (fillna (Fin 0.5) (to_numeric (default (Numeric (Fin 0.5)) o)))
              (Fin 0) (Fin 1).

(** One pass of a loop: the column is set to its normal form. *)
Definition ensure_col (norm : option cell -> float)
    (row : gmap string cell) (c : string) : gmap string cell :=
  <[ c := Numeric (norm (row !! c)) ]> row.

(** The first two loops of [ensure_columns]. *)
Definition ensure_columns (row : gmap string cell) : gmap string cell :=
  foldl (ensure_col norm_similarity)
        (foldl (ensure_col norm_numeric) row NUMERIC_COLS)
        COMP_COLS.

(** ** Notions the properties are stated with *)

(** The column that holds the similarity of a component of [W]. *)
Definition column_of (name : string) : string := ("s_" +:+ name)%string.

(** [pat in s] on strings: [pat] occurs in [s] as a run of consecutive
    characters, compared one by one. *)
Fixpoint prefix_of (p s : list N) : bool :=
  match p, s with
  | [], _ => true
  | _ :: _, [] => false
  | a :: p', c :: s' => (a =? c)%N && prefix_of p' s'
  end.

Fixpoint is_substring (p s : list N) : bool :=
  prefix_of p s ||
  match s with
  | [] => false
  | _ :: s' => is_substring p s'
  end.

Definition str_in (pat s : string) : bool :=
  is_substring (codepoints pat) (codepoints s).

(** A pattern every character of which is literal. *)
Fixpoint plain (pat : list N) : bool :=
  match pat with
  | [] => true
  | c :: pat' =>
      match token_of c pat' with
      | TAtom (Lit _) => plain pat'
      | _ => false
      end
  end.

(** Texts with characters outside ASCII, by their UTF-8 bytes: a no-break
    space (U+00A0), and the text 10 between two of them. *)
Definition nbsp : string := String "194" (String "160" EmptyString).

Definition nbsp_10_nbsp : string := (nbsp +:+ "10" +:+ nbsp)%string.

(** A no-break space, a next line (U+0085) and an em space (U+2003). *)
Definition unicode_blank : string :=
  (nbsp +:+ String "194" (String "133" EmptyString)
        +:+ String "226" (String "128" (String "131" EmptyString)))%string.

(** A finite float and its value; the exact sum of the values of a list,
    from a starting value on. *)
Definition isfin (x : float) : bool :=
  match x with Fin _ => true | _ => false end.

Definition qval (x : float) : Q :=
  match x with Fin q => q | _ => 0 end.

Definition Qsum_from (acc : Q) (l : list float) : Q :=
  fold_left (fun a x => a + qval x) l acc.

(** A part stands against its entry of [W]: same component, both values
    finite, the part's at most the weight. *)
Definition bounded_part (part nw : string * float) : Prop :=
  fst part = fst nw /\ W !!! fst nw = snd nw /\
  isfin (snd part) = true /\ isfin (snd nw) = true /\
  qval (snd part) <= qval (snd nw).

(** * Properties *)

(** ** Comparisons *)

Lemma fle_nan_l (y : float) : fle NaN y = false.
Proof. reflexivity. Qed.

Lemma fle_nan_r (x : float) : fle x NaN = false.
Proof. destruct x; reflexivity. Qed.

Lemma fge_nan_l (t : float) : fge NaN t = false.
Proof. apply fle_nan_r. Qed.

Lemma fle_not_nan (x y : float) :
  fle x y = true -> isnan x = false /\ isnan y = false.
Proof. destruct x, y; simpl; intros E; try discriminate; split; reflexivity. Qed.

Lemma fle_refl (x : float) : isnan x = false -> fle x x = true.
Proof.
  destruct x; simpl; intros E; try discriminate; try reflexivity.
  apply Qle_bool_iff, Qle_refl.
Qed.

Lemma fle_trans (x y z : float) :
  fle x y = true -> fle y z = true -> fle x z = true.
Proof.
  destruct x, y, z; simpl; intros E1 E2; try discriminate; try reflexivity.
  apply Qle_bool_iff. apply Qle_bool_iff in E1, E2.
  eapply Qle_trans; eassumption.
Qed.

Lemma fle_total (x y : float) :
  isnan x = false -> isnan y = false -> fle x y = true \/ fle y x = true.
Proof.
  destruct x as [| |a|], y as [| |b|]; simpl; intros Ex Ey;
    try discriminate; auto.
  destruct (Qlt_le_dec b a) as [Hlt|Hle].
  - right. apply Qle_bool_iff, Qlt_le_weak, Hlt.
  - left. apply Qle_bool_iff, Hle.
Qed.

Lemma precedes_total (asc : bool) (a b : float) :
  precedes asc a b = false -> precedes asc b a = true.
Proof.
  unfold precedes. destruct (isnan b) eqn:Eb; [discriminate|].
  destruct (isnan a) eqn:Ea; [reflexivity|]. simpl.
  destruct (fle_total a b Ea Eb) as [H|H], asc; rewrite H; congruence.
Qed.

Lemma precedes_trans (asc : bool) (a b c : float) :
  precedes asc a b = true -> precedes asc b c = true -> precedes asc a c = true.
Proof.
  unfold precedes. destruct (isnan c) eqn:Ec; [reflexivity|]. simpl.
  destruct (isnan b) eqn:Eb; simpl; [intros _ E; discriminate|].
  destruct (isnan a) eqn:Ea; simpl; [intros E; discriminate|].
  destruct asc; intros H1 H2; eauto using fle_trans.
Qed.

(** ** [clamp01] *)

Lemma np_clip_range (x : float) :
  isnan x = false ->
  fle (Fin 0.0) (np_clip x (Fin 0.0) (Fin 1.0)) = true /\
  fle (np_clip x (Fin 0.0) (Fin 1.0)) (Fin 1.0) = true.
Proof.
  destruct x as [| |q|]; intros E; try discriminate; try (split; reflexivity).
  unfold np_clip, np_maximum, np_minimum, fgt, flt; simpl.
  destruct (Qle_bool 0.0 q) eqn:E0; destruct (Qle_bool q 0.0) eqn:E0';
    simpl; try (split; reflexivity);
    destruct (Qle_bool q 1.0) eqn:E1; destruct (Qle_bool 1.0 q) eqn:E1';
    simpl; rewrite ?E0, ?E1; split; reflexivity.
Qed.

(** On every input whose conversion is a number, [clamp01] lands in the unit
    interval. *)
Lemma clamp01_range (x : cell) :
  isnan (safe_float x (Fin 0.0)) = false ->
  fle (Fin 0.0) (clamp01 x) = true /\ fle (clamp01 x) (Fin 1.0) = true.
Proof. intros E. unfold clamp01. apply np_clip_range, E. Qed.

Lemma np_clip_nan (lo hi : float) : np_clip NaN lo hi = NaN.
Proof. reflexivity. Qed.

Lemma clamp01_isnan (x : cell) :
  isnan (clamp01 x) = isnan (safe_float x (Fin 0.0)).
Proof.
  unfold clamp01. destruct (safe_float x (Fin 0.0)) as [| |q|] eqn:E;
    try reflexivity.
  destruct (np_clip_range (Fin q) eq_refl) as [H _].
  apply fle_not_nan in H. apply H.
Qed.

(** Clamping a clamped value changes nothing. *)
Lemma clamp01_idempotent (x : cell) :
  clamp01 (Numeric (clamp01 x)) = clamp01 x.
Proof.
  unfold clamp01. simpl safe_float at 1.
  destruct (safe_float x (Fin 0.0)) as [| |q|]; try reflexivity.
  unfold np_clip, np_maximum, np_minimum, fgt, flt; simpl.
  destruct (Qle_bool 0.0 q) eqn:E0; destruct (Qle_bool q 0.0) eqn:E0'; simpl;
    try reflexivity;
    destruct (Qle_bool q 1.0) eqn:E1; destruct (Qle_bool 1.0 q) eqn:E1'; simpl;
    rewrite ?E0, ?E0', ?E1, ?E1'; simpl; rewrite ?E1, ?E1'; reflexivity.
Qed.

(** C6: at a not-a-number input [clamp01] returns not-a-number, which lies
    outside the unit interval and is unequal to itself, so neither the range
    nor the idempotence of the claim holds there. *)
Theorem clamp01_nan_escapes :
  clamp01 (Numeric NaN) = NaN /\
  fle (Fin 0.0) (clamp01 (Numeric NaN)) = false /\
  fle (clamp01 (Numeric NaN)) (Fin 1.0) = false /\
  feq (clamp01 (Numeric (clamp01 (Numeric NaN)))) (clamp01 (Numeric NaN)) = false.
Proof. repeat split. Qed.

(** ** The sort interface is met *)

Section InsertionSort.
Context {A : Type} (key : A -> float) (asc : bool).

Let before (a b : A) : Prop := precedes asc (key a) (key b) = true.

Lemma insert_by_perm (x : A) (l : list A) :
  Permutation (insert_by key asc x l) (x :: l).
Proof.
  induction l as [|y l IH]; simpl; [reflexivity|].
  destruct (precedes asc (key x) (key y)); [reflexivity|].
  rewrite IH. apply perm_swap.
Qed.

Lemma insertion_sort_perm (l : list A) :
  Permutation (insertion_sort key asc l) l.
Proof.
  induction l as [|x l IH]; simpl; [reflexivity|].
  rewrite insert_by_perm. apply perm_skip, IH.
Qed.

Lemma insert_by_Forall (P : A -> Prop) (x : A) (l : list A) :
  P x -> Forall P l -> Forall P (insert_by key asc x l).
Proof.
  intros Hx Hl. eapply Permutation_Forall.
  - symmetry. apply insert_by_perm.
  - constructor; assumption.
Qed.

Lemma insert_by_sorted (x : A) (l : list A) :
  StronglySorted before l -> StronglySorted before (insert_by key asc x l).
Proof.
  induction 1 as [|y l Hs IH Hy]; simpl.
  - repeat constructor.
  - destruct (precedes asc (key x) (key y)) eqn:E.
    + constructor; [constructor; assumption|].
      constructor; [exact E|].
      eapply Forall_impl; [exact Hy|].
      intros z Hz. unfold before in *. eapply precedes_trans; eassumption.
    + constructor; [exact IH|].
      apply insert_by_Forall; [|exact Hy].
      apply precedes_total, E.
Qed.

Lemma insertion_sort_sorted (l : list A) :
  StronglySorted before (insertion_sort key asc l).
Proof.
  induction l as [|x l IH]; simpl; [constructor|].
  apply insert_by_sorted, IH.
Qed.
End InsertionSort.

(** The insertion sort as an instance of the interface. *)
Definition stable_sort : PandasSort :=
  {| sort_by := @insertion_sort;
     sort_by_perm := @insertion_sort_perm;
     sort_by_sorted := @insertion_sort_sorted |}.

(** A second instance: the same sort run over the reversed input, which
    leaves rows with equal keys in reverse input order. *)
Definition reversing_sort : PandasSort.
Proof.
  refine {| sort_by := fun A key asc l => insertion_sort key asc (rev l) |}.
  - intros A key asc l. rewrite insertion_sort_perm. symmetry. apply Permutation_rev.
  - intros A key asc l. apply insertion_sort_sorted.
Defined.

(** ** [apply_filters] *)

Lemma filter_filter {A : Type} (f g : A -> bool) (l : list A) :
  List.filter f (List.filter g l) = List.filter (fun x => g x && f x) l.
Proof.
  induction l as [|x l IH]; simpl; [reflexivity|].
  destruct (g x); simpl; [destruct (f x)|]; rewrite IH; reflexivity.
Qed.

Lemma filter_true {A : Type} (l : list A) :
  List.filter (fun _ => true) l = l.
Proof. induction l as [|x l IH]; simpl; [|rewrite IH]; reflexivity. Qed.

Lemma filter_ext_bool {A : Type} (f g : A -> bool) (l : list A) :
  (forall x, f x = g x) -> List.filter f l = List.filter g l.
Proof.
  intros E. induction l as [|x l IH]; simpl; [reflexivity|].
  rewrite E, IH. reflexivity.
Qed.

Lemma filter_id_iff {A : Type} (f : A -> bool) (l : list A) :
  List.filter f l = l <-> Forall (fun x => f x = true) l.
Proof.
  induction l as [|x l IH]; simpl.
  - split; [constructor|reflexivity].
  - destruct (f x) eqn:E.
    + split.
      * intros H. injection H as H. constructor; [exact E|apply IH, H].
      * intros H. inversion H; subst. f_equal. apply IH. assumption.
    + split.
      * intros H. exfalso.
        assert (Hin : In x (List.filter f l)) by (rewrite H; left; reflexivity).
        apply filter_In in Hin. destruct Hin as [_ Hin]. congruence.
      * intros H. inversion H; subst. congruence.
Qed.

(** The result of [apply_filters] is the rows of the input that pass every
    predicate, in input order. *)
Lemma apply_filters_passes (df : list record)
    (loc ty cond : list string) (pr sr : option (float * float))
    (ms mb : float) :
  apply_filters df loc ty cond pr sr ms mb =
  List.filter (passes loc ty cond pr sr ms mb) df.
Proof.
  unfold apply_filters, passes.
  destruct loc, ty, cond, pr, sr; cbn [truthy negb orb];
    rewrite ?filter_filter;
    try (rewrite <- (filter_true df) at 1; rewrite ?filter_filter);
    apply filter_ext_bool; intros r;
    cbn [andb]; rewrite ?andb_true_r, ?andb_assoc; reflexivity.
Qed.

(** C4: a comparison with not-a-number on the left is false, for [>=] and
    for an inclusive range alike; a row that [apply_filters] keeps has a
    matchScore and a budgetGate that are numbers, and a price (a size) that
    is a number whenever a price (a size) range is given. *)
Theorem apply_filters_fail_closed (df : list record)
    (loc ty cond : list string) (pr sr : option (float * float))
    (ms mb : float) (r : record) :
  In r (apply_filters df loc ty cond pr sr ms mb) ->
  (forall t, fge NaN t = false) /\
  (forall lo hi, fge NaN lo && fle NaN hi = false) /\
  isnan (MatchScore r) = false /\
  isnan (g_budget r) = false /\
  (is_Some pr -> isnan (Price r) = false) /\
  (is_Some sr -> isnan (Size r) = false).
Proof.
  rewrite apply_filters_passes. intros Hin.
  apply filter_In in Hin. destruct Hin as [_ Hp].
  unfold passes in Hp.
  repeat (apply andb_prop in Hp; destruct Hp as [Hp ?]).
  split; [exact fge_nan_l|].
  split; [intros lo hi; rewrite fge_nan_l; reflexivity|].
  repeat split.
  - match goal with H : fge (MatchScore r) _ = true |- _ =>
      apply fle_not_nan in H; apply H end.
  - match goal with H : fge (g_budget r) _ = true |- _ =>
      apply fle_not_nan in H; apply H end.
  - intros [x ->].
    match goal with H : (fge (Price r) _ && _) = true |- _ =>
      apply andb_prop in H; destruct H as [H _];
      apply fle_not_nan in H; apply H end.
  - intros [x ->].
    match goal with H : (fge (Size r) _ && _) = true |- _ =>
      apply andb_prop in H; destruct H as [H _];
      apply fle_not_nan in H; apply H end.
Qed.

Lemma apply_filters_fail_closed_witness :
  let r := mk_record "101" (Fin 90) (Fin 1) in
  isnan (MatchScore r) = false /\ isnan (g_budget r) = false.
Proof.
  intros r.
  assert (Hin : In r (apply_filters [mk_record "7" NaN (Fin 1); r] [] [] []
                        (Some (Fin 0, Fin 300000)) None (Fin 0.0) (Fin 0.0)))
    by (vm_compute; left; reflexivity).
  destruct (apply_filters_fail_closed _ _ _ _ _ _ _ _ _ Hin)
    as (_ & _ & H1 & H2 & _).
  split; assumption.
Defined.

(** C1 (as amended): with empty criteria, that is no categorical list, no
    range and both thresholds 0, [apply_filters] returns, in input order,
    the rows whose matchScore and budgetGate are both at least 0, and it
    returns the input unchanged exactly when every row is such a row. *)
Theorem apply_filters_empty_criteria (df : list record) :
  apply_filters df [] [] [] None None (Fin 0.0) (Fin 0.0) =
    List.filter
      (fun r => fge (MatchScore r) (Fin 0.0) && fge (g_budget r) (Fin 0.0)) df /\
  (apply_filters df [] [] [] None None (Fin 0.0) (Fin 0.0) = df <->
   Forall (fun r => fge (MatchScore r) (Fin 0.0) = true /\
                    fge (g_budget r) (Fin 0.0) = true) df).
Proof.
  assert (E : apply_filters df [] [] [] None None (Fin 0.0) (Fin 0.0) =
    List.filter
      (fun r => fge (MatchScore r) (Fin 0.0) && fge (g_budget r) (Fin 0.0)) df).
  { rewrite apply_filters_passes. apply filter_ext_bool. intros r. reflexivity. }
  split; [exact E|].
  rewrite E, filter_id_iff. split; intros H.
  - eapply Forall_impl; [exact H|]. intros r Hr. apply andb_prop in Hr. exact Hr.
  - eapply Forall_impl; [exact H|]. intros r [H1 H2]. rewrite H1, H2. reflexivity.
Qed.

(** C1 (as stated) fails: a row whose matchScore is not-a-number, and a row
    whose matchScore is below 0, are dropped under empty criteria. *)
Lemma apply_filters_empty_criteria_drops :
  apply_filters [mk_record "101" NaN (Fin 1)] [] [] [] None None
                (Fin 0.0) (Fin 0.0) = [] /\
  apply_filters [mk_record "101" (Fin 90) NaN] [] [] [] None None
                (Fin 0.0) (Fin 0.0) = [] /\
  apply_filters [mk_record "101" (Fin (-5)) (Fin 1)] [] [] [] None None
                (Fin 0.0) (Fin 0.0) = [].
Proof. repeat split. Qed.

(** ** [generate_reason] *)

Lemma bullets_budget_cases (row : gmap string cell) :
  bullets_budget row = [] \/ exists c, bullets_budget row = [c].
Proof.
  unfold bullets_budget.
  destruct (negb (isnan (budget_gate row))); [|left; reflexivity].
  right. destruct (fge (budget_gate row) (Fin 0.98)); [eexists; reflexivity|].
  destruct (fge (budget_gate row) (Fin 0.85)); eexists; reflexivity.
Qed.

Lemma bullets_strong_length (row : gmap string cell) :
  (length (bullets_strong row) <= 2)%nat.
Proof.
  unfold bullets_strong.
  destruct (bullets_budget_cases row) as [E|[c E]]; rewrite E;
    destruct (strong row); simpl; lia.
Qed.

Lemma bullets_final_cases (row : gmap string cell) :
  bullets_final row = bullets_strong row \/
  bullets_final row =
    bullets_strong row ++
    [("trade-offs: " +:+ String.concat ", " (firstn 2 (weak row)))%string].
Proof.
  unfold bullets_final. destruct (weak row); [left; reflexivity|].
  destruct (length (bullets_strong row) <? 2)%nat; [right|left]; reflexivity.
Qed.

(** C7: the clauses of a reason number at most 3; the trade-offs clause,
    made of the first two weak labels, is added only when fewer than 2
    clauses stand before it, so never when the budget clause and the
    strong-components clause are both there. *)
Theorem generate_reason_clauses (row : gmap string cell) :
  (length (bullets_final row) <= 3)%nat /\
  (bullets_final row = bullets_strong row \/
   bullets_final row =
     bullets_strong row ++
     [("trade-offs: " +:+ String.concat ", " (firstn 2 (weak row)))%string]) /\
  (bullets_final row <> bullets_strong row ->
   (length (bullets_strong row) < 2)%nat /\ weak row <> []) /\
  (bullets_budget row <> [] -> strong row <> [] ->
   bullets_final row = bullets_strong row).
Proof.
  pose proof (bullets_strong_length row) as Hlen.
  unfold bullets_final.
  destruct (weak row) as [|w ws] eqn:Ew.
  - repeat split; try lia; try (left; reflexivity); congruence.
  - destruct (length (bullets_strong row) <? 2)%nat eqn:Elt.
    + apply Nat.ltb_lt in Elt. repeat split.
      * rewrite length_app. simpl. lia.
      * right. reflexivity.
      * exact Elt.
      * discriminate.
      * intros Hb Hs. exfalso. revert Elt. unfold bullets_strong.
        destruct (bullets_budget_cases row) as [E|[c E]]; [congruence|].
        rewrite E. destruct (strong row); [congruence|]. simpl. lia.
    + repeat split; try lia; try (left; reflexivity); congruence.
Qed.

Lemma budget_bands (g : float) :
  (flt g (Fin 0.98) = true -> fge g (Fin 0.98) = false) /\
  (flt g (Fin 0.85) = true -> fge g (Fin 0.85) = false /\ fge g (Fin 0.98) = false).
Proof.
  unfold flt, fge. split.
  - intros H. apply andb_prop in H. destruct H as [_ H].
    apply negb_true_iff in H. exact H.
  - intros H. apply andb_prop in H. destruct H as [_ H].
    apply negb_true_iff in H. split; [exact H|].
    destruct (fle (Fin 0.98) g) eqn:E; [|reflexivity].
    rewrite (fle_trans (Fin 0.85) (Fin 0.98) g eq_refl E) in H. discriminate.
Qed.

(** ** [compute_weighted_contributions] *)

(** The similarity columns are those of [COMP_COLS], for [W] and for
    [mapping] alike, in one order. *)
Lemma component_columns :
  map column_of (map fst W_items) = COMP_COLS /\ map fst mapping = COMP_COLS.
Proof. split; reflexivity. Qed.

Lemma contribution_parts_map (row : gmap string cell) :
  contribution_parts row =
  map (fun nw : string * float =>
         (fst nw,
          fmul (W !!! fst nw)
               (clamp01 (row_get row (column_of (fst nw)) (Numeric (Fin 0.5))))))
      W_items.
Proof. reflexivity. Qed.

Lemma contribution_value `{PandasSort} (row : gmap string cell)
    (name : string) (v : float) :
  In (name, v) (compute_weighted_contributions row) <->
  In name (map fst W_items) /\
  v = fmul (W !!! name)
           (clamp01 (row_get row (column_of name) (Numeric (Fin 0.5)))).
Proof.
  unfold compute_weighted_contributions.
  pose proof (sort_by_perm _ snd false (contribution_parts row)) as Hp.
  assert (Hiff : In (name, v) (sort_by snd false (contribution_parts row)) <->
                 In (name, v) (contribution_parts row)).
  { split; apply Permutation_in; [exact Hp|symmetry; exact Hp]. }
  rewrite Hiff, contribution_parts_map, in_map_iff. split.
  - intros [[n w] [E Hin]]. simpl in E. injection E as -> ->.
    split; [|reflexivity]. apply in_map_iff. exists (name, w). split; [reflexivity|exact Hin].
  - intros [Hin ->]. apply in_map_iff in Hin. destruct Hin as [[n w] [E Hin]].
    simpl in E. subst n. exists (name, w). split; [reflexivity|exact Hin].
Qed.

Lemma weak_label (row : gmap string cell) (k label : string) :
  In (k, label) mapping ->
  fle (clamp01 (row_get row k (Numeric (Fin 0.5)))) (Fin 0.35) = true ->
  In label (weak row).
Proof.
  intros Hin Hle. unfold weak. apply in_map_iff. exists (k, label).
  split; [reflexivity|]. apply filter_In. split; [exact Hin|exact Hle].
Qed.

(** C10: a similarity cell that is present but does not parse is clamped to
    0.0, not to the 0.5 an absent cell gets; its weighted contribution is
    zero and its label is among the weak ones. *)
Theorem unparseable_component_is_zero `{PandasSort} (row : gmap string cell)
    (name s : string) :
  In name (map fst W_items) ->
  row !! column_of name = Some (NonNumeric s) ->
  clamp01 (row_get row (column_of name) (Numeric (Fin 0.5))) = Fin 0.0 /\
  clamp01 (row_get (delete (column_of name) row) (column_of name)
                   (Numeric (Fin 0.5))) = Fin 0.5 /\
  (exists v, In (name, v) (compute_weighted_contributions row)) /\
  (forall v, In (name, v) (compute_weighted_contributions row) ->
             feq v (Fin 0) = true) /\
  (exists label, In (column_of name, label) mapping) /\
  (forall label, In (column_of name, label) mapping -> In label (weak row)).
Proof.
  intros Hname Hcell.
  assert (Hc : clamp01 (row_get row (column_of name) (Numeric (Fin 0.5))) = Fin 0.0).
  { unfold row_get. rewrite Hcell. reflexivity. }
  split; [exact Hc|].
  split; [unfold row_get; rewrite lookup_delete_eq; reflexivity|].
  split.
  { eexists. apply contribution_value. split; [exact Hname|reflexivity]. }
  split.
  { intros v Hv. apply contribution_value in Hv. destruct Hv as [_ ->].
    rewrite Hc. simpl in Hname.
    repeat (destruct Hname as [<-|Hname]; [vm_compute; reflexivity|]).
    destruct Hname. }
  split.
  { simpl in Hname.
    repeat (destruct Hname as [<-|Hname];
            [eexists; unfold mapping, column_of; simpl; eauto 10|]).
    destruct Hname. }
  intros label Hl. eapply weak_label; [exact Hl|]. rewrite Hc. reflexivity.
Qed.

Lemma unparseable_component_is_zero_witness :
  clamp01 (row_get {[ "s_bed" := NonNumeric "n/a" ]} (column_of "bed")
                   (Numeric (Fin 0.5))) = Fin 0.0.
Proof.
  refine (proj1 (@unparseable_component_is_zero stable_sort
                   {[ "s_bed" := NonNumeric "n/a" ]} "bed" "n/a" _ _)).
  - simpl. right. left. reflexivity.
  - vm_compute. reflexivity.
Defined.

Lemma fold_fadd_nan (l : list float) : fold_left fadd l NaN = NaN.
Proof. induction l as [|x l IH]; simpl; [reflexivity|exact IH]. Qed.

Lemma py_sum_nan (l : list float) : In NaN l -> py_sum l = NaN.
Proof.
  unfold py_sum. generalize (Fin 0). induction l as [|x l IH]; intros acc Hin.
  - destruct Hin.
  - simpl. destruct Hin as [->|Hin].
    + replace (fadd acc NaN) with NaN by (destruct acc; reflexivity).
      apply fold_fadd_nan.
    + apply IH, Hin.
Qed.

(** C9 at a record whose price similarity is not-a-number: the price
    contribution is not-a-number, which is not at most the price weight,
    and the sum of the contributions is not-a-number, which is not at most
    the sum of the weights. *)
Theorem contributions_nan_unbounded `{PandasSort} :
  let row : gmap string cell := {[ "s_price" := Numeric NaN ]} in
  In ("price", NaN) (compute_weighted_contributions row) /\
  fle NaN (W !!! "price") = false /\
  fle (py_sum (map snd (compute_weighted_contributions row)))
      (py_sum (map snd W_items)) = false.
Proof.
  intros row.
  assert (Hin : In ("price", NaN) (compute_weighted_contributions row)).
  { apply contribution_value. split; [left; reflexivity|].
    vm_compute. reflexivity. }
  split; [exact Hin|]. split; [reflexivity|].
  rewrite py_sum_nan; [reflexivity|].
  apply in_map_iff. exists ("price", NaN). split; [reflexivity|exact Hin].
Qed.

(** ** The search step *)

Lemma token_of_literal (c d : N) (rest : list N) :
  token_of c rest = TAtom (Lit d) -> d = c.
Proof.
  unfold token_of.
  repeat match goal with
         | |- context [if ?b then _ else _] => destruct b
         end; intros E; try discriminate E; injection E as <-; reflexivity.
Qed.

Lemma re_compile_plain (pat : list N) :
  plain pat = true -> re_compile pat = Some [map Lit pat].
Proof.
  induction pat as [|c pat IH]; cbn [plain re_compile map]; [reflexivity|].
  destruct (token_of c pat) as [[d| | |]| |] eqn:E; try discriminate.
  intros Hp. rewrite (IH Hp). apply token_of_literal in E. subst d.
  reflexivity.
Qed.

Lemma match_here_literal (p s : list N) (at_start : bool) :
  match_here (map Lit p) at_start s = prefix_of p s.
Proof.
  revert s at_start. induction p as [|a p IH]; intros [|c s] at_start;
    cbn [map match_here prefix_of atom_matches]; try reflexivity.
  rewrite IH. reflexivity.
Qed.

Lemma search_from_literal (p s : list N) (at_start : bool) :
  search_from [map Lit p] at_start s = is_substring p s.
Proof.
  revert at_start. induction s as [|c s IH]; intros at_start;
    cbn [search_from existsb is_substring];
    rewrite match_here_literal, orb_false_r; [reflexivity|].
  rewrite IH. reflexivity.
Qed.

Lemma prefix_of_iff (p s : list N) :
  prefix_of p s = true <-> exists post, s = p ++ post.
Proof.
  revert s. induction p as [|a p IH]; intros s; cbn [prefix_of app].
  - split; [intros _; exists s; reflexivity|reflexivity].
  - destruct s as [|c s].
    + split; [discriminate|intros [post E]; discriminate].
    + rewrite andb_true_iff, IH, N.eqb_eq. split.
      * intros [-> [post ->]]. exists post. reflexivity.
      * intros [post E]. injection E as -> ->. split; [reflexivity|eauto].
Qed.

(** [is_substring p s] holds exactly when [s] is some text, then [p], then
    some text. *)
Lemma is_substring_iff (p s : list N) :
  is_substring p s = true <-> exists pre post, s = pre ++ p ++ post.
Proof.
  induction s as [|c s IH]; cbn [is_substring];
    rewrite orb_true_iff, prefix_of_iff.
  - split.
    + intros [[post E]|H]; [|discriminate]. exists [], post. exact E.
    + intros [pre [post E]]. left. destruct pre; simpl in E.
      * exists post. exact E.
      * discriminate.
  - rewrite IH. split.
    + intros [[post E]|[pre [post E]]].
      * exists [], post. exact E.
      * exists (c :: pre), post. rewrite E. reflexivity.
    + intros [pre [post E]]. destruct pre as [|d pre]; simpl in E.
      * left. exists post. exact E.
      * right. injection E as -> ->. exists pre, post. reflexivity.
Qed.

Lemma utf8_encode_one_cons (c : N) :
  exists b bs, utf8_encode_one c = b :: bs.
Proof.
  unfold utf8_encode_one.
  repeat match goal with
         | |- context [if ?b then _ else _] => destruct b
         end; eexists _, _; reflexivity.
Qed.

Lemma strip_empty_iff (s : string) :
  strip s = EmptyString <-> strip_chars (codepoints s) = [].
Proof.
  unfold strip. destruct (strip_chars (codepoints s)) as [|c l].
  - split; reflexivity.
  - cbn [utf8_encode flat_map].
    destruct (utf8_encode_one_cons c) as (b & bs & ->).
    split; discriminate.
Qed.

(** What [lstrip] and [strip_chars] drop is whitespace, and what they leave
    neither begins nor ends with whitespace. *)
Lemma lstrip_spec (s : list N) :
  exists pre,
    s = pre ++ lstrip s /\ Forall (fun c => isspace c = true) pre /\
    (forall c rest, lstrip s = c :: rest -> isspace c = false).
Proof.
  induction s as [|c s (pre & E & Hpre & Hhd)]; cbn [lstrip].
  - exists []. repeat split; [constructor|discriminate].
  - destruct (isspace c) eqn:Ec.
    + exists (c :: pre). split; [cbn [app]; f_equal; exact E|].
      split; [constructor; assumption|exact Hhd].
    + exists []. split; [reflexivity|]. split; [constructor|].
      intros d rest Hd. injection Hd as <- _. exact Ec.
Qed.

Lemma strip_chars_spec (s : list N) :
  exists pre post,
    s = pre ++ strip_chars s ++ post /\
    Forall (fun c => isspace c = true) pre /\
    Forall (fun c => isspace c = true) post /\
    (forall c rest, strip_chars s = c :: rest -> isspace c = false) /\
    (forall c init, strip_chars s = init ++ [c] -> isspace c = false).
Proof.
  unfold strip_chars.
  destruct (lstrip_spec s) as (pre & E1 & Hpre & Hhd1).
  destruct (lstrip_spec (rev (lstrip s))) as (post & E2 & Hpost & Hhd2).
  set (u := lstrip (rev (lstrip s))) in *.
  assert (Et : lstrip s = rev u ++ rev post).
  { rewrite <- (rev_involutive (lstrip s)), E2, rev_app_distr. reflexivity. }
  exists pre, (rev post). split; [rewrite <- Et; exact E1|].
  split; [exact Hpre|]. split; [apply Forall_rev, Hpost|]. split.
  - intros c rest Hc. apply (Hhd1 c (rest ++ rev post)).
    rewrite Et, Hc. reflexivity.
  - intros c init Hc. apply (Hhd2 c (rev init)).
    rewrite <- (rev_involutive u), Hc, rev_app_distr. reflexivity.
Qed.

Lemma search_step_plain (search_pid : string) (filtered : list record) :
  strip search_pid <> EmptyString ->
  plain (strip_chars (codepoints search_pid)) = true ->
  search_step search_pid filtered =
  Some (List.filter
          (fun r => is_substring (strip_chars (codepoints search_pid))
                                 (codepoints (Property_ID r)))
          filtered).
Proof.
  intros Hne Hplain. unfold search_step.
  destruct (strip_chars (codepoints search_pid)) as [|c pat] eqn:E.
  - exfalso. apply Hne, strip_empty_iff, E.
  - rewrite (re_compile_plain _ Hplain). f_equal.
    apply filter_ext_bool. intros r. apply search_from_literal.
Qed.

Lemma search_step_blank (search_pid : string) (filtered : list record) :
  strip search_pid = EmptyString -> search_step search_pid filtered = Some filtered.
Proof.
  intros E. apply strip_empty_iff in E. unfold search_step. rewrite E.
  reflexivity.
Qed.

(** C3 (as amended): the search text is first stripped of the whitespace at
    its ends, and of nothing else.  If nothing is left, no search is made
    and the outcome is the first [top_k] rows of the sorted frame.  If
    something is left and every character of it is literal, the rows kept
    are exactly those whose propertyId holds the stripped text as a run of
    consecutive, equal characters; they are taken from the sorted frame, in
    its order, and only then cut to the first [top_k]. *)
Theorem rank_search_ordinary `{PandasSort} (filtered : list record)
    (choice : sort_choice) (search_pid : string) (top_k : nat) :
  (exists pre post,
     codepoints search_pid =
       pre ++ strip_chars (codepoints search_pid) ++ post /\
     Forall (fun c => isspace c = true) pre /\
     Forall (fun c => isspace c = true) post /\
     (forall c rest, strip_chars (codepoints search_pid) = c :: rest ->
                     isspace c = false) /\
     (forall c init, strip_chars (codepoints search_pid) = init ++ [c] ->
                     isspace c = false)) /\
  (strip_chars (codepoints search_pid) = [] ->
   rank filtered choice search_pid top_k =
     Some (firstn top_k
             (sort_by (fst (sort_col_map choice)) (snd (sort_col_map choice))
                      filtered))) /\
  (strip_chars (codepoints search_pid) <> [] ->
   plain (strip_chars (codepoints search_pid)) = true ->
   rank filtered choice search_pid top_k =
     Some (firstn top_k
             (List.filter
                (fun r => is_substring (strip_chars (codepoints search_pid))
                                       (codepoints (Property_ID r)))
                (sort_by (fst (sort_col_map choice)) (snd (sort_col_map choice))
                         filtered)))) /\
  (forall r,
     is_substring (strip_chars (codepoints search_pid))
                  (codepoints (Property_ID r)) = true <->
     exists pre post,
       codepoints (Property_ID r) =
       pre ++ strip_chars (codepoints search_pid) ++ post).
Proof.
  split; [apply strip_chars_spec|]. split; [|split].
  - intros E. unfold rank. destruct (sort_col_map choice) as [sort_col ascending].
    cbn [fst snd]. rewrite search_step_blank by (apply strip_empty_iff, E).
    reflexivity.
  - intros Hne Hplain. unfold rank.
    destruct (sort_col_map choice) as [sort_col ascending]. cbn [fst snd].
    rewrite search_step_plain; [reflexivity| |exact Hplain].
    intros E. apply Hne, strip_empty_iff, E.
  - intros r. apply is_substring_iff.
Qed.

Lemma rank_search_ordinary_witness :
  option_map (map Property_ID)
    (@rank stable_sort example_frame MatchScore_desc nbsp_10_nbsp 10) =
  Some ["101"; "310"].
Proof.
  rewrite (proj1 (proj2 (proj2 (@rank_search_ordinary stable_sort example_frame
                                   MatchScore_desc nbsp_10_nbsp 10)))
             ltac:(vm_compute; discriminate) ltac:(vm_compute; reflexivity)).
  vm_compute. reflexivity.
Defined.

(** C3 (as stated) fails.  A search text of one blank is non-empty, no
    propertyId holds it, and every row is kept.  The text 10 between two
    no-break spaces is held by no propertyId, and the rows 101 and 310 are
    kept.  The search text 1.1 is held by no propertyId, and the row 101 is
    kept, its dot standing for any character. *)
Lemma rank_search_not_exact_substring :
  (List.filter (fun r => str_in " " (Property_ID r)) example_frame = [] /\
   option_map (map Property_ID)
     (@rank stable_sort example_frame MatchScore_desc " " 10) =
   Some ["101"; "202"; "310"]) /\
  (List.filter (fun r => str_in nbsp_10_nbsp (Property_ID r)) example_frame = [] /\
   option_map (map Property_ID)
     (@rank stable_sort example_frame MatchScore_desc nbsp_10_nbsp 10) =
   Some ["101"; "310"]) /\
  (List.filter (fun r => str_in "1.1" (Property_ID r)) example_frame = [] /\
   option_map (map Property_ID)
     (@rank stable_sort example_frame MatchScore_desc "1.1" 10) =
   Some ["101"]).
Proof. vm_compute. repeat split. Qed.

(** A blank search text leaves the sorted frame as it is. *)
Lemma rank_search_blank `{PandasSort} (filtered : list record)
    (choice : sort_choice) (search_pid : string) (top_k : nat) :
  strip search_pid = EmptyString ->
  rank filtered choice search_pid top_k =
    Some (head top_k
            (sort_by (fst (sort_col_map choice)) (snd (sort_col_map choice))
                     filtered)).
Proof.
  intros E. unfold rank. destruct (sort_col_map choice) as [sort_col ascending].
  simpl. rewrite (search_step_blank _ _ E). reflexivity.
Qed.

(** Patterns with a caret, a dollar, a bar, a closing bracket and braces
    that open no repeat count, on the identifiers 101, 202 and 310. *)
Example rank_search_patterns :
  map (fun pat => option_map (map Property_ID)
                    (@rank stable_sort example_frame MatchScore_desc pat 10))
      ["^1"; "0$"; "1|2"; "]"; "{"; "1{"; "0{,}"; "("; "1*"]%string =
  [ Some ["101"]; Some ["310"]; Some ["101"; "202"; "310"]; Some []; Some [];
    Some []; None; None; None ].
Proof. vm_compute. reflexivity. Qed.

(** ** What the sort contract leaves open

    Both sorts above meet the contract of [sort_values], and they order
    rows with equal keys differently: on the rows A, B, C with scores 90,
    90, 80, and on the contributions of a record with no similarity cell,
    where condition ties with location and year with size. *)
Lemma tie_order_depends_on_sort :
  map Property_ID (@sort_by stable_sort _ MatchScore false tie_frame) =
    ["A"; "B"; "C"] /\
  map Property_ID (@sort_by reversing_sort _ MatchScore false tie_frame) =
    ["B"; "A"; "C"] /\
  map fst (@compute_weighted_contributions stable_sort ∅) =
    ["price"; "bed"; "type"; "bath"; "cond"; "loc"; "year"; "size"] /\
  map fst (@compute_weighted_contributions reversing_sort ∅) =
    ["price"; "bed"; "type"; "bath"; "loc"; "cond"; "size"; "year"].
Proof. vm_compute. repeat split. Qed.

(** Whatever the sort, the contributions come out as a rearrangement of the
    eight parts, in descending order of value. *)
Lemma compute_weighted_contributions_sorted `{PandasSort}
    (row : gmap string cell) :
  Permutation (compute_weighted_contributions row) (contribution_parts row) /\
  StronglySorted (fun a b => precedes false (snd a) (snd b) = true)
                 (compute_weighted_contributions row).
Proof.
  split; [apply sort_by_perm|apply sort_by_sorted].
Qed.

(** ** Bounds on the contributions of a record free of not-a-number *)

Lemma py_sum_fin (l : list float) :
  Forall (fun x => isfin x = true) l -> py_sum l = Fin (Qsum_from 0 l).
Proof.
  unfold py_sum, Qsum_from. generalize 0.
  induction l as [|x l IH]; intros acc Hl; simpl; [reflexivity|].
  inversion Hl as [|? ? Hx Hl']; subst.
  destruct x as [| |q|]; try discriminate. simpl. apply IH, Hl'.
Qed.

Lemma Qsum_from_proper (l : list float) (a b : Q) :
  a == b -> Qsum_from a l == Qsum_from b l.
Proof.
  unfold Qsum_from. revert a b. induction l as [|x l IH]; intros a b E; simpl.
  - exact E.
  - apply IH. rewrite E. reflexivity.
Qed.

Lemma Qsum_from_perm (l l' : list float) :
  Permutation l l' -> forall a, Qsum_from a l == Qsum_from a l'.
Proof.
  induction 1 as [|x l l' _ IH|x y l|l l' l'' _ IH1 _ IH2]; intros a.
  - reflexivity.
  - apply (IH (a + qval x)).
  - apply (Qsum_from_proper l). ring.
  - rewrite IH1. apply IH2.
Qed.

Lemma Qsum_from_le (l1 l2 : list float) :
  Forall2 (fun x y => qval x <= qval y) l1 l2 ->
  forall a b, a <= b -> Qsum_from a l1 <= Qsum_from b l2.
Proof.
  induction 1 as [|x y l1 l2 Hxy _ IH]; intros a b Hab; simpl.
  - exact Hab.
  - apply IH. lra.
Qed.

Lemma clamp01_fin (x : cell) :
  isnan (safe_float x (Fin 0.0)) = false ->
  exists q, clamp01 x = Fin q /\ 0 <= q /\ q <= 1.
Proof.
  intros E. destruct (clamp01_range x E) as [H0 H1].
  destruct (clamp01 x) as [| |q|]; try discriminate.
  exists q. split; [reflexivity|].
  simpl in H0, H1. apply Qle_bool_iff in H0, H1. split; lra.
Qed.

Lemma weighted_le_weight (w : Q) (x : cell) :
  0 <= w ->
  isnan (safe_float x (Fin 0.0)) = false ->
  exists v, fmul (Fin w) (clamp01 x) = Fin v /\ 0 <= v /\ v <= w.
Proof.
  intros Hw E. destruct (clamp01_fin x E) as (q & -> & H0 & H1).
  exists (w * q). split; [reflexivity|]. split; nra.
Qed.

Lemma bounded_parts_le (ps nws : list (string * float)) :
  Forall2 bounded_part ps nws ->
  forall name v, In (name, v) ps -> fle v (W !!! name) = true.
Proof.
  induction 1 as [|part nw ps nws (E1 & E2 & F1 & F2 & Hle) _ IH];
    intros name v Hin.
  - destruct Hin.
  - destruct Hin as [->|Hin]; [|exact (IH _ _ Hin)].
    simpl in *. subst name. rewrite E2.
    destruct v as [| |a|]; try discriminate.
    destruct (snd nw) as [| |b|]; try discriminate.
    simpl in *. apply Qle_bool_iff, Hle.
Qed.

Lemma bounded_parts_fin (ps nws : list (string * float)) :
  Forall2 bounded_part ps nws ->
  Forall (fun x => isfin x = true) (map snd ps) /\
  Forall (fun x => isfin x = true) (map snd nws) /\
  Forall2 (fun x y => qval x <= qval y) (map snd ps) (map snd nws).
Proof.
  induction 1 as [|part nw ps nws (E1 & E2 & F1 & F2 & Hle) _ (IH1 & IH2 & IH3)];
    simpl; repeat split; constructor; assumption.
Qed.

Lemma W_items_weights :
  Forall (fun nw : string * float =>
            In (fst nw) (map fst W_items) /\
            exists w, snd nw = Fin w /\ 0 <= w /\ W !!! fst nw = Fin w)
         W_items.
Proof.
  unfold W_items at 2.
  repeat (apply List.Forall_cons;
    [ split;
      [ cbn [fst map W_items]; repeat (first [left; reflexivity | right])
      | eexists; split; [reflexivity|];
        split; [vm_compute; discriminate | vm_compute; reflexivity] ]
    | ]).
  apply List.Forall_nil.
Qed.

Lemma weighted_parts_bounded (row : gmap string cell)
    (l : list (string * float)) :
  (forall name, In name (map fst W_items) ->
     isnan (safe_float (row_get row (column_of name) (Numeric (Fin 0.5)))
                       (Fin 0.0)) = false) ->
  Forall (fun nw : string * float =>
            In (fst nw) (map fst W_items) /\
            exists w, snd nw = Fin w /\ 0 <= w /\ W !!! fst nw = Fin w) l ->
  Forall2 bounded_part
    (map (fun nw : string * float =>
            (fst nw,
             fmul (W !!! fst nw)
                  (clamp01 (row_get row (column_of (fst nw)) (Numeric (Fin 0.5))))))
         l)
    l.
Proof.
  intros Hrow Hall.
  induction Hall as [|nw l' (Hin & w & Ew & Hw & EW) _ IH]; cbn [map];
    constructor; [|exact IH].
  destruct (weighted_le_weight w
              (row_get row (column_of (fst nw)) (Numeric (Fin 0.5))) Hw
              (Hrow _ Hin)) as (v & Ev & Hv0 & Hv1).
  unfold bounded_part. cbn [fst snd]. rewrite EW, Ev, Ew. cbn [isfin qval].
  auto.
Qed.

Lemma contribution_parts_bounded (row : gmap string cell) :
  (forall name, In name (map fst W_items) ->
     isnan (safe_float (row_get row (column_of name) (Numeric (Fin 0.5)))
                       (Fin 0.0)) = false) ->
  Forall2 bounded_part (contribution_parts row) W_items.
Proof.
  intros Hrow. rewrite contribution_parts_map.
  apply weighted_parts_bounded; [exact Hrow|exact W_items_weights].
Qed.

(** For a record none of whose similarity cells converts to not-a-number:
    each contribution is at most the weight of its component, and the sum
    of the contributions is at most the sum of the weights. *)
Lemma contributions_bounded `{PandasSort} (row : gmap string cell) :
  (forall name, In name (map fst W_items) ->
     isnan (safe_float (row_get row (column_of name) (Numeric (Fin 0.5)))
                       (Fin 0.0)) = false) ->
  (forall name v, In (name, v) (compute_weighted_contributions row) ->
     fle v (W !!! name) = true) /\
  fle (py_sum (map snd (compute_weighted_contributions row)))
      (py_sum (map snd W_items)) = true.
Proof.
  intros Hrow.
  pose proof (contribution_parts_bounded row Hrow) as Hparts.
  pose proof (sort_by_perm _ snd false (contribution_parts row)) as Hp.
  fold (compute_weighted_contributions row) in Hp.
  destruct (bounded_parts_fin _ _ Hparts) as (Hf1 & Hf2 & Hle).
  split.
  - intros name v Hin. apply (Permutation_in _ Hp) in Hin.
    exact (bounded_parts_le _ _ Hparts _ _ Hin).
  - assert (Hf0 : Forall (fun x => isfin x = true)
                    (map snd (compute_weighted_contributions row))).
    { eapply Permutation_Forall; [|exact Hf1].
      apply Permutation_map. symmetry. exact Hp. }
    rewrite (py_sum_fin _ Hf0), (py_sum_fin _ Hf2). cbn [fle].
    apply Qle_bool_iff.
    rewrite (Qsum_from_perm _ _ (Permutation_map snd Hp) 0).
    apply Qsum_from_le; [exact Hle|lra].
Qed.

(** * Further properties of the code *)

(** ** [clamp01] on the inputs it handles *)

Lemma np_clip_in_range (q : Q) :
  Qle_bool 0.0 q = true -> Qle_bool q 1.0 = true ->
  feq (np_clip (Fin q) (Fin 0.0) (Fin 1.0)) (Fin q) = true.
Proof.
  intros H0 H1.
  unfold np_clip, np_maximum, np_minimum, fgt, flt, feq. cbn [isnan orb fle].
  rewrite H0. cbn [andb].
  destruct (Qle_bool q 0.0) eqn:E0; cbn [negb fle isnan orb andb].
  - assert (E1 : Qle_bool 0.0 1.0 = true) by reflexivity.
    assert (E2 : Qle_bool 1.0 0.0 = false) by reflexivity.
    rewrite E1, E2. cbn [negb andb fle]. rewrite H0, E0. reflexivity.
  - rewrite H1. cbn [andb].
    destruct (Qle_bool 1.0 q) eqn:E1; cbn [negb fle andb].
    + rewrite E1, H1. reflexivity.
    + assert (Hr : Qle_bool q q = true) by (apply Qle_bool_iff; lra).
      rewrite Hr. reflexivity.
Qed.

(** X1: on every input whose conversion is not not-a-number (a number, an
    infinity, or anything that does not convert at all) [clamp01] lands in
    the unit interval; a value already there is returned as it is, a lower
    one becomes 0.0, a higher one 1.0; and clamping twice is clamping
    once. *)
Theorem clamp01_unit_interval (x : cell) :
  isnan (safe_float x (Fin 0.0)) = false ->
  (fle (Fin 0.0) (clamp01 x) = true /\ fle (clamp01 x) (Fin 1.0) = true) /\
  (fle (Fin 0.0) (safe_float x (Fin 0.0)) = true ->
   fle (safe_float x (Fin 0.0)) (Fin 1.0) = true ->
   feq (clamp01 x) (safe_float x (Fin 0.0)) = true) /\
  (flt (safe_float x (Fin 0.0)) (Fin 0.0) = true -> clamp01 x = Fin 0.0) /\
  (fgt (safe_float x (Fin 0.0)) (Fin 1.0) = true -> clamp01 x = Fin 1.0) /\
  clamp01 (Numeric (clamp01 x)) = clamp01 x.
Proof.
  intros E. split; [apply clamp01_range, E|].
  split; [|split; [|split; [|apply clamp01_idempotent]]];
    unfold clamp01; destruct (safe_float x (Fin 0.0)) as [| |q|];
    try discriminate; try reflexivity;
    unfold np_clip, np_maximum, np_minimum, fgt, flt, feq; simpl.
  - intros H0 H1. exact (np_clip_in_range q H0 H1).
  - intros H. apply andb_prop in H. destruct H as [H1 H2].
    apply negb_true_iff in H2. rewrite H1, H2. reflexivity.
  - intros H. apply andb_prop in H. destruct H as [H1 H2].
    apply negb_true_iff in H2.
    assert (H0 : Qle_bool 0.0 q = true).
    { apply Qle_bool_iff. apply Qle_bool_iff in H1. lra. }
    assert (H0' : Qle_bool q 0.0 = false).
    { destruct (Qle_bool q 0.0) eqn:E0; [|reflexivity].
      apply Qle_bool_iff in E0, H1. exfalso. lra. }
    rewrite H0, H0'. simpl. rewrite H2, H1. reflexivity.
Qed.

Lemma clamp01_unit_interval_witness :
  fle (Fin 0.0) (clamp01 (NonNumeric "n/a")) = true /\
  fle (clamp01 (NonNumeric "n/a")) (Fin 1.0) = true.
Proof.
  exact (proj1 (clamp01_unit_interval (NonNumeric "n/a") eq_refl)).
Defined.

(** ** [apply_filters] as an operation on frames *)

Lemma filter_sublist {A : Type} (f : A -> bool) (l : list A) :
  sublist (List.filter f l) l.
Proof.
  induction l as [|x l IH]; simpl; [constructor|].
  destruct (f x); constructor; exact IH.
Qed.

Lemma filter_twice {A : Type} (f : A -> bool) (l : list A) :
  List.filter f (List.filter f l) = List.filter f l.
Proof.
  rewrite filter_filter. apply filter_ext_bool. intros x. apply andb_diag.
Qed.

(** X2: whatever the criteria, the result of [apply_filters] is the input
    with rows left out, the kept rows in their input order; a kept row
    passes every predicate; and filtering the result again by the same
    criteria changes nothing. *)
Theorem apply_filters_sublist_idempotent (df : list record)
    (loc ty cond : list string) (pr sr : option (float * float))
    (ms mb : float) :
  sublist (apply_filters df loc ty cond pr sr ms mb) df /\
  (length (apply_filters df loc ty cond pr sr ms mb) <= length df)%nat /\
  (forall r, In r (apply_filters df loc ty cond pr sr ms mb) <->
             In r df /\ passes loc ty cond pr sr ms mb r = true) /\
  apply_filters (apply_filters df loc ty cond pr sr ms mb)
                loc ty cond pr sr ms mb =
  apply_filters df loc ty cond pr sr ms mb.
Proof.
  rewrite !apply_filters_passes.
  split; [apply filter_sublist|].
  split; [apply sublist_length, filter_sublist|].
  split; [intros r; apply filter_In|apply filter_twice].
Qed.

Lemma fge_np_maximum (x a b : float) :
  fge x a && fge x b = fge x (np_maximum a b).
Proof.
  unfold fge, np_maximum, fgt, flt.
  destruct (isnan a) eqn:Ea.
  { destruct a; try discriminate. reflexivity. }
  destruct (isnan b) eqn:Eb.
  { destruct b; try discriminate. simpl. apply andb_false_r. }
  simpl. destruct (fle b a) eqn:Eba; simpl.
  - destruct (fle a b) eqn:Eab; simpl.
    + destruct (fle b x) eqn:Ebx; [|apply andb_false_r].
      rewrite (fle_trans a b x Eab Ebx). reflexivity.
    + destruct (fle a x) eqn:Eax; [|reflexivity].
      rewrite (fle_trans b a x Eba Eax). reflexivity.
  - destruct (fle_total a b Ea Eb) as [Eab|Eab]; [|congruence].
    destruct (fle b x) eqn:Ebx; [|apply andb_false_r].
    rewrite (fle_trans a b x Eab Ebx). reflexivity.
Qed.

(** X3: filtering twice with the same categorical lists and ranges and with
    two pairs of thresholds is filtering once with the larger threshold of
    each pair (a not-a-number threshold, which keeps no row, counting as
    the larger). *)
Theorem apply_filters_thresholds_compose (df : list record)
    (loc ty cond : list string) (pr sr : option (float * float))
    (ms1 mb1 ms2 mb2 : float) :
  apply_filters (apply_filters df loc ty cond pr sr ms1 mb1)
                loc ty cond pr sr ms2 mb2 =
  apply_filters df loc ty cond pr sr (np_maximum ms1 ms2) (np_maximum mb1 mb2).
Proof.
  rewrite !apply_filters_passes, filter_filter.
  apply filter_ext_bool. intros r. unfold passes.
  rewrite <- !fge_np_maximum.
  generalize (negb (truthy loc) || isin (Location r) loc).
  generalize (negb (truthy ty) || isin (Type_ r) ty).
  generalize (negb (truthy cond) || isin (Condition r) cond).
  generalize (match pr with
              | Some pr0 => fge (Price r) pr0.1 && fle (Price r) pr0.2
              | None => true
              end).
  generalize (match sr with
              | Some sr0 => fge (Size r) sr0.1 && fle (Size r) sr0.2
              | None => true
              end).
  generalize (fge (MatchScore r) ms1), (fge (MatchScore r) ms2),
    (fge (g_budget r) mb1), (fge (g_budget r) mb2).
  intros [] [] [] [] [] [] [] [] []; reflexivity.
Qed.

(** X4: a price range whose lower bound is not at most its upper bound (the
    bounds crossed, or one of them not-a-number) keeps no row; so does such
    a size range. *)
Theorem apply_filters_crossed_range (df : list record)
    (loc ty cond : list string) (pr sr : option (float * float))
    (ms mb : float) (lo hi : float) :
  fle lo hi = false ->
  apply_filters df loc ty cond (Some (lo, hi)) sr ms mb = [] /\
  apply_filters df loc ty cond pr (Some (lo, hi)) ms mb = [].
Proof.
  intros Hx.
  assert (Hno : forall v, fge v lo && fle v hi = false).
  { intros v. unfold fge. destruct (fle lo v) eqn:E1; [|reflexivity].
    destruct (fle v hi) eqn:E2; [|reflexivity].
    rewrite (fle_trans lo v hi E1 E2) in Hx. discriminate. }
  assert (Hnil : forall f : record -> bool,
            (forall r, f r = false) -> List.filter f df = []).
  { intros f Hf. induction df as [|r l IH]; simpl; [reflexivity|].
    rewrite Hf. exact IH. }
  rewrite !apply_filters_passes. split; apply Hnil; intros r; unfold passes;
    cbn [fst snd]; rewrite Hno, ?andb_false_r; reflexivity.
Qed.

Lemma apply_filters_crossed_range_witness :
  apply_filters example_frame [] [] [] (Some (Fin 300000, Fin 100000)) None
                (Fin 0.0) (Fin 0.0) = [].
Proof.
  exact (proj1 (apply_filters_crossed_range example_frame [] [] [] None None
                  (Fin 0.0) (Fin 0.0) (Fin 300000) (Fin 100000) eq_refl)).
Defined.

(** ** The contribution frame *)

(** X5: whatever the sort, the contribution frame has eight rows, one for
    each component of [W]; its values are those of the parts; and it is in
    descending order of value, rows whose value is not-a-number last. *)
Theorem contributions_complete_sorted `{PandasSort} (row : gmap string cell) :
  length (compute_weighted_contributions row) = 8%nat /\
  Permutation (map fst (compute_weighted_contributions row)) (map fst W_items) /\
  NoDup (map fst (compute_weighted_contributions row)) /\
  Permutation (compute_weighted_contributions row) (contribution_parts row) /\
  StronglySorted (fun a b => precedes false (snd a) (snd b) = true)
                 (compute_weighted_contributions row).
Proof.
  pose proof (sort_by_perm _ snd false (contribution_parts row)) as Hp.
  fold (compute_weighted_contributions row) in Hp.
  assert (Hn : Permutation (map fst (compute_weighted_contributions row))
                           (map fst W_items)).
  { rewrite Hp. reflexivity. }
  split; [rewrite Hp; reflexivity|].
  split; [exact Hn|].
  split; [|split; [exact Hp|apply sort_by_sorted]].
  rewrite Hn. cbn [map fst W_items].
  repeat (apply NoDup_cons; split;
          [rewrite !list_elem_of_In; cbn [In]; intuition discriminate|]).
  apply NoDup_nil. reflexivity.
Qed.

(** X6: for a record none of whose similarity cells converts to
    not-a-number (a cell that is absent or does not convert at all is
    fine), each contribution is at least zero and at most the weight of its
    component, and the contributions sum to at most the sum of the
    weights. *)
Theorem contributions_within_weights `{PandasSort} (row : gmap string cell) :
  (forall name, In name (map fst W_items) ->
     isnan (safe_float (row_get row (column_of name) (Numeric (Fin 0.5)))
                       (Fin 0.0)) = false) ->
  (forall name v, In (name, v) (compute_weighted_contributions row) ->
     fle (Fin 0) v = true /\ fle v (W !!! name) = true) /\
  fle (py_sum (map snd (compute_weighted_contributions row)))
      (py_sum (map snd W_items)) = true.
Proof.
  intros Hrow. destruct (contributions_bounded row Hrow) as [Hle Hsum].
  split; [|exact Hsum].
  intros name v Hin. split; [|exact (Hle name v Hin)].
  apply contribution_value in Hin. destruct Hin as [Hname ->].
  pose proof W_items_weights as Hall.
  rewrite List.Forall_forall in Hall.
  apply in_map_iff in Hname. destruct Hname as [nw [<- Hnw]].
  destruct (Hall nw Hnw) as (Hin & w & _ & Hw & ->).
  destruct (weighted_le_weight w
              (row_get row (column_of (fst nw)) (Numeric (Fin 0.5))) Hw
              (Hrow _ Hin)) as (v & -> & Hv0 & _).
  apply Qle_bool_iff, Hv0.
Qed.

Lemma contributions_within_weights_witness :
  fle (py_sum (map snd (@compute_weighted_contributions stable_sort
                          {[ "s_bed" := NonNumeric "n/a" ]})))
      (py_sum (map snd W_items)) = true.
Proof.
  refine (proj2 (@contributions_within_weights stable_sort
                   {[ "s_bed" := NonNumeric "n/a" ]} _)).
  intros name Hname. cbn [map fst W_items In] in Hname.
  repeat (destruct Hname as [<-|Hname]; [vm_compute; reflexivity|]).
  destruct Hname.
Defined.

(** ** The ranking steps *)





(** X8: a search text that is empty or all whitespace, that of Unicode
    included (a no-break space, a next line, an em space), applies no
    search: the outcome is the first [top_k] rows of the sorted frame, as
    many as [top_k] or, if fewer, as many as the input has. *)
Theorem rank_blank_search_top_k `{PandasSort} (filtered : list record)
    (choice : sort_choice) (search_pid : string) (top_k : nat) :
  strip search_pid = EmptyString ->
  exists out,
    rank filtered choice search_pid top_k = Some out /\
    out = firstn top_k (sort_by (fst (sort_col_map choice))
                                (snd (sort_col_map choice)) filtered) /\
    length out = Nat.min top_k (length filtered).
Proof.
  intros E. eexists. split; [apply rank_search_blank, E|].
  split; [reflexivity|].
  unfold head. rewrite length_firstn.
  rewrite (Permutation_length (sort_by_perm _ _ _ filtered)). reflexivity.
Qed.

Lemma rank_blank_search_top_k_witness :
  codepoints unicode_blank = [160; 133; 8195]%N /\
  exists out,
    @rank stable_sort example_frame Price_asc unicode_blank 2 = Some out /\
    map Property_ID out = ["101"; "202"]%string /\
    length out = 2%nat.
Proof.
  split; [vm_compute; reflexivity|].
  destruct (@rank_blank_search_top_k stable_sort example_frame Price_asc
              unicode_blank 2 ltac:(vm_compute; reflexivity))
    as (out & E1 & E2 & E3).
  exists out. split; [exact E1|]. split; [|exact E3].
  rewrite E2. vm_compute. reflexivity.
Defined.

(** ** [generate_reason] on raw records *)

(** X9: the budget clause is there exactly when the record has a
    [g_budget] cell that converts to a number other than not-a-number; a
    record with no such cell, or with one that does not convert, gets no
    budget clause. *)
Theorem budget_clause_presence (row : gmap string cell) :
  bullets_budget row <> [] <->
  exists f, row !! "g_budget" = Some (Numeric f) /\ isnan f = false.
Proof.
  assert (G : budget_gate row =
              match row !! "g_budget" with
              | Some (Numeric f) => f
              | _ => NaN
              end).
  { unfold budget_gate, row_get, safe_float.
    destruct (row !! "g_budget") as [[f|s]|]; reflexivity. }
  unfold bullets_budget. rewrite G. clear G.
  destruct (row !! "g_budget") as [[f|s]|]; cbn [isnan negb app].
  - destruct (isnan f) eqn:E; cbn [negb].
    + split; [intros H; exfalso; apply H; reflexivity|].
      intros (f' & Ef & Hf). congruence.
    + split; [intros _; exists f; split; [reflexivity|exact E]|].
      intros _. destruct (fge f (Fin 0.98)); [discriminate|].
      destruct (fge f (Fin 0.85)); discriminate.
  - split; [intros H; exfalso; apply H; reflexivity|].
    intros (f & Ef & _). discriminate.
  - split; [intros H; exfalso; apply H; reflexivity|].
    intros (f & Ef & _). discriminate.
Qed.

Lemma mapping_label_inj (kl kl' : string * string) :
  In kl mapping -> In kl' mapping -> snd kl = snd kl' -> kl = kl'.
Proof.
  unfold mapping. cbn [In]. intros H H' E.
  repeat (destruct H as [<-|H]);
    repeat (destruct H' as [<-|H']);
    first [reflexivity | discriminate E | destruct H | destruct H'].
Qed.

Lemma strong_weak_In (row : gmap string cell) (label : string) :
  (In label (strong row) <->
   exists k, In (k, label) mapping /\
     fge (clamp01 (row_get row k (Numeric (Fin 0.5)))) (Fin 0.80) = true) /\
  (In label (weak row) <->
   exists k, In (k, label) mapping /\
     fle (clamp01 (row_get row k (Numeric (Fin 0.5)))) (Fin 0.35) = true).
Proof.
  unfold strong, weak. split; rewrite in_map_iff; split.
  - intros ([k l] & <- & Hin). apply filter_In in Hin. exists k. exact Hin.
  - intros (k & Hin & Hp). exists (k, label). split; [reflexivity|].
    apply filter_In. split; assumption.
  - intros ([k l] & <- & Hin). apply filter_In in Hin. exists k. exact Hin.
  - intros (k & Hin & Hp). exists (k, label). split; [reflexivity|].
    apply filter_In. split; assumption.
Qed.

(** X10: no label is both among the strong and among the weak ones; and
    the label of a component whose cell converts to not-a-number is among
    neither, so such a component is never mentioned in a reason. *)
Theorem strong_weak_exclusive (row : gmap string cell) :
  (forall label, In label (strong row) -> ~ In label (weak row)) /\
  (forall k label,
     In (k, label) mapping ->
     isnan (safe_float (row_get row k (Numeric (Fin 0.5))) (Fin 0.0)) = true ->
     ~ In label (strong row) /\ ~ In label (weak row)).
Proof.
  split.
  - intros label Hs Hw.
    apply strong_weak_In in Hs. apply strong_weak_In in Hw.
    destruct Hs as (k & Hk & Hge). destruct Hw as (k' & Hk' & Hle).
    pose proof (mapping_label_inj _ _ Hk Hk' eq_refl) as E.
    injection E as <-. unfold fge in Hge.
    pose proof (fle_trans _ _ _ Hge Hle) as Hc. discriminate Hc.
  - intros k label Hk Hnan.
    rewrite <- clamp01_isnan in Hnan.
    split; intros Hin; apply strong_weak_In in Hin;
      destruct Hin as (k' & Hk' & Hc);
      pose proof (mapping_label_inj _ _ Hk Hk' eq_refl) as E;
      injection E as <-; unfold fge in Hc; apply fle_not_nan in Hc;
      destruct Hc; congruence.
Qed.

Lemma append_cons (c : ascii) (s t : string) :
  (String c s +:+ t)%string = String c (s +:+ t).
Proof. reflexivity. Qed.

Lemma append_empty_r (s : string) : (s +:+ "")%string = s.
Proof.
  induction s as [|c s IH]; [reflexivity|]. rewrite append_cons, IH. reflexivity.
Qed.

Lemma append_assoc (s t u : string) :
  ((s +:+ t) +:+ u)%string = (s +:+ (t +:+ u))%string.
Proof.
  induction s as [|c s IH]; [reflexivity|].
  rewrite !append_cons, IH. reflexivity.
Qed.

Lemma str_lower_app (s t : string) :
  str_lower (s +:+ t) = (str_lower s +:+ str_lower t)%string.
Proof.
  induction s as [|c s IH]; [reflexivity|].
  rewrite append_cons. cbn [str_lower]. rewrite append_cons, IH. reflexivity.
Qed.

Lemma capitalize_app (c : ascii) (s t : string) :
  capitalize (String c s +:+ t) =
  (capitalize (String c s) +:+ str_lower t)%string.
Proof.
  rewrite append_cons. cbn [capitalize].
  rewrite append_cons, str_lower_app. reflexivity.
Qed.

Lemma concat_head (sep b : string) (bs : list string) :
  exists t, String.concat sep (b :: bs) = (b +:+ t)%string.
Proof.
  destruct bs as [|b' bs]; simpl.
  - exists ""%string. symmetry. apply append_empty_r.
  - eexists. reflexivity.
Qed.

Lemma generate_reason_head (row : gmap string cell) (c : ascii)
    (b : string) (bs : list string) :
  bullets_final row = String c b :: bs ->
  exists tail,
    generate_reason row = (capitalize (String c b) +:+ tail)%string.
Proof.
  intros E. unfold generate_reason. rewrite E.
  destruct (concat_head " • " (String c b) bs) as [t ->].
  rewrite capitalize_app, append_assoc. eexists. reflexivity.
Qed.

Lemma bullets_budget_bands (row : gmap string cell) :
  (fge (budget_gate row) (Fin 0.98) = true ->
   bullets_budget row = ["within budget"]) /\
  (fge (budget_gate row) (Fin 0.85) = true ->
   flt (budget_gate row) (Fin 0.98) = true ->
   bullets_budget row = ["slightly above budget (small penalty)"]) /\
  (flt (budget_gate row) (Fin 0.85) = true ->
   bullets_budget row = ["over budget (strong penalty)"]).
Proof.
  unfold bullets_budget. split; [|split].
  - intros H. destruct (fle_not_nan _ _ H) as [_ Hn]. rewrite Hn, H. reflexivity.
  - intros H1 H2. destruct (fle_not_nan _ _ H1) as [_ Hn].
    apply budget_bands in H2. rewrite Hn, H1, H2. reflexivity.
  - intros H. destruct (budget_bands (budget_gate row)) as [_ Hb].
    destruct (Hb H) as [H1 H2].
    apply andb_prop in H. destruct H as [H _].
    destruct (fle_not_nan _ _ H) as [Hn _]. rewrite Hn, H1, H2. reflexivity.
Qed.

Lemma bullets_final_budget_first (row : gmap string cell) (b : string) :
  bullets_budget row = [b] -> exists bs, bullets_final row = b :: bs.
Proof.
  intros E.
  destruct (bullets_final_cases row) as [F|F]; rewrite F;
    unfold bullets_strong; rewrite E; destruct (strong row);
    cbn [app]; eexists; reflexivity.
Qed.

Lemma first_bullet_initial (row : gmap string cell) (b : string)
    (bs : list string) :
  bullets_final row = b :: bs ->
  exists c t, b = String c t /\
    (c = "w" \/ c = "s" \/ c = "o" \/ c = "t")%char.
Proof.
  destruct (bullets_final_cases row) as [F|F]; rewrite F; clear F;
    unfold bullets_strong, bullets_budget;
    destruct (negb (isnan (budget_gate row)));
    try destruct (fge (budget_gate row) (Fin 0.98));
    try destruct (fge (budget_gate row) (Fin 0.85));
    destruct (strong row); cbn [app];
    intros E; try discriminate E; injection E as <- _;
    eexists _, _; (split; [reflexivity|]); tauto.
Qed.

(** X11: a reason always ends with a full stop; when the budget gate is a
    number the reason opens with the budget clause of its band, first
    letter in upper case; and the reason is the fallback text exactly when
    no clause was produced. *)
Theorem generate_reason_shape (row : gmap string cell) :
  (exists body, generate_reason row = (body +:+ ".")%string) /\
  (fge (budget_gate row) (Fin 0.98) = true ->
   exists tail, generate_reason row = ("Within budget" +:+ tail)%string) /\
  (fge (budget_gate row) (Fin 0.85) = true ->
   flt (budget_gate row) (Fin 0.98) = true ->
   exists tail,
     generate_reason row =
     ("Slightly above budget (small penalty)" +:+ tail)%string) /\
  (flt (budget_gate row) (Fin 0.85) = true ->
   exists tail,
     generate_reason row = ("Over budget (strong penalty)" +:+ tail)%string) /\
  (generate_reason row = fallback <-> bullets_final row = []).
Proof.
  destruct (bullets_budget_bands row) as (B1 & B2 & B3).
  split; [|split; [|split; [|split]]].
  - unfold generate_reason. destruct (bullets_final row).
    + exists "Balanced match across constraints and preferences"%string.
      reflexivity.
    + eexists. reflexivity.
  - intros H. destruct (bullets_final_budget_first row _ (B1 H)) as [bs E].
    exact (generate_reason_head row _ _ bs E).
  - intros H1 H2.
    destruct (bullets_final_budget_first row _ (B2 H1 H2)) as [bs E].
    exact (generate_reason_head row _ _ bs E).
  - intros H. destruct (bullets_final_budget_first row _ (B3 H)) as [bs E].
    exact (generate_reason_head row _ _ bs E).
  - split.
    + intros Hf. destruct (bullets_final row) as [|b bs] eqn:E; [reflexivity|].
      exfalso.
      destruct (first_bullet_initial row b bs E) as (c & t & -> & Hc).
      destruct (generate_reason_head row c t bs E) as [tail Hg].
      rewrite Hg in Hf. unfold fallback in Hf. cbn [capitalize append] in Hf.
      injection Hf as Hc' _.
      destruct Hc as [-> | [-> | [-> | ->]]]; vm_compute in Hc';
        discriminate Hc'.
    + unfold generate_reason. intros ->. reflexivity.
Qed.

(** ** The budget clause in the returned text *)

Lemma budget_gate_cell (row : gmap string cell) :
  budget_gate row =
  match row !! "g_budget" with
  | Some (Numeric f) => f
  | _ => NaN
  end.
Proof.
  unfold budget_gate, row_get, safe_float.
  destruct (row !! "g_budget") as [[f|s]|]; reflexivity.
Qed.

Lemma bullets_budget_nil (row : gmap string cell) :
  bullets_budget row = [] <-> isnan (budget_gate row) = true.
Proof.
  unfold bullets_budget. destruct (isnan (budget_gate row)); cbn [negb].
  - split; reflexivity.
  - destruct (fge (budget_gate row) (Fin 0.98));
      [|destruct (fge (budget_gate row) (Fin 0.85))];
      split; cbn [app]; intros; discriminate.
Qed.

Lemma generate_reason_opening (row : gmap string cell) (c : ascii)
    (b : string) (bs : list string) :
  bullets_final row = String c b :: bs ->
  exists tail,
    generate_reason row = (capitalize (String c b) +:+ tail)%string /\
    (tail = "."%string \/ exists t, tail = (" • " +:+ t)%string).
Proof.
  intros E. unfold generate_reason. rewrite E.
  destruct bs as [|b' bs].
  - exists "."%string. split; [reflexivity|left; reflexivity].
  - change (String.concat " • " (String c b :: b' :: bs))
      with (String c b +:+ (" • " +:+ String.concat " • " (b' :: bs)))%string.
    rewrite capitalize_app, str_lower_app, !append_assoc.
    eexists. split; [reflexivity|]. right. eexists. reflexivity.
Qed.

Lemma generate_reason_no_clause (row : gmap string cell) :
  generate_reason row = fallback <-> bullets_final row = [].
Proof.
  split.
  - intros Hf. destruct (bullets_final row) as [|b bs] eqn:E; [reflexivity|].
    exfalso.
    destruct (first_bullet_initial row b bs E) as (c & t & -> & Hc).
    destruct (generate_reason_head row c t bs E) as [tail Hg].
    rewrite Hg in Hf. unfold fallback in Hf. cbn [capitalize append] in Hf.
    injection Hf as Hc' _.
    destruct Hc as [-> | [-> | [-> | ->]]]; vm_compute in Hc';
      discriminate Hc'.
  - unfold generate_reason. intros ->. reflexivity.
Qed.

Lemma bullets_final_nil (row : gmap string cell) :
  bullets_final row = [] <->
  bullets_budget row = [] /\ strong row = [] /\ weak row = [].
Proof.
  unfold bullets_final, bullets_strong.
  destruct (bullets_budget_cases row) as [E|[c E]]; rewrite E;
    destruct (strong row) as [|s ss]; destruct (weak row) as [|w ws];
    cbn [app length Nat.ltb Nat.leb]; split;
    try (intros H; discriminate H);
    try (intros (H1 & H2 & H3); discriminate);
    try (intros _; repeat split; reflexivity);
    try reflexivity.
Qed.

Lemma first_bullet_without_budget (row : gmap string cell) :
  bullets_budget row = [] ->
  bullets_final row = [] \/
  (exists x bs, bullets_final row = ("strong on: " +:+ x)%string :: bs) \/
  (exists x bs, bullets_final row = ("trade-offs: " +:+ x)%string :: bs).
Proof.
  intros E. unfold bullets_final, bullets_strong. rewrite E.
  destruct (strong row) as [|s ss]; destruct (weak row) as [|w ws];
    cbn [app length Nat.ltb Nat.leb].
  - left. reflexivity.
  - right. right. eexists _, _. reflexivity.
  - right. left. eexists _, _. reflexivity.
  - right. left. eexists _, _. reflexivity.
Qed.

Lemma generate_reason_without_budget (row : gmap string cell) :
  bullets_budget row = [] ->
  generate_reason row = fallback \/
  (exists tail, generate_reason row = ("Strong on: " +:+ tail)%string) \/
  (exists tail, generate_reason row = ("Trade-offs: " +:+ tail)%string).
Proof.
  intros E.
  destruct (first_bullet_without_budget row E)
    as [F|[(x & bs & F)|(x & bs & F)]].
  - left. apply generate_reason_no_clause, F.
  - right. left.
    destruct (generate_reason_head row "s" ("trong on: " +:+ x) bs F)
      as [tail Hg].
    exists (str_lower x +:+ tail)%string. rewrite Hg. cbn [capitalize].
    rewrite str_lower_app. reflexivity.
  - right. right.
    destruct (generate_reason_head row "t" ("rade-offs: " +:+ x) bs F)
      as [tail Hg].
    exists (str_lower x +:+ tail)%string. rewrite Hg. cbn [capitalize].
    rewrite str_lower_app. reflexivity.
Qed.

(** C8: for a record whose [g_budget] cell is a number, the returned text
    opens with the budget clause of the band of that number, followed by
    the full stop or by the separator and the next clause.  The clause is
    left out exactly when the cell is absent, does not convert, or is
    not-a-number, and the text then opens with another clause or is the
    fallback.  The text is the fixed fallback exactly when no clause was
    produced, that is when there is no budget clause, no strong and no
    weak component. *)
Theorem generate_reason_budget_clause (row : gmap string cell) :
  (forall g, row !! "g_budget" = Some (Numeric g) ->
     fge g (Fin 0.98) = true ->
     bullets_budget row = ["within budget"] /\
     exists tail,
       generate_reason row = ("Within budget" +:+ tail)%string /\
       (tail = "."%string \/ exists t, tail = (" • " +:+ t)%string)) /\
  (forall g, row !! "g_budget" = Some (Numeric g) ->
     fge g (Fin 0.85) = true -> flt g (Fin 0.98) = true ->
     bullets_budget row = ["slightly above budget (small penalty)"] /\
     exists tail,
       generate_reason row =
         ("Slightly above budget (small penalty)" +:+ tail)%string /\
       (tail = "."%string \/ exists t, tail = (" • " +:+ t)%string)) /\
  (forall g, row !! "g_budget" = Some (Numeric g) ->
     flt g (Fin 0.85) = true ->
     bullets_budget row = ["over budget (strong penalty)"] /\
     exists tail,
       generate_reason row = ("Over budget (strong penalty)" +:+ tail)%string /\
       (tail = "."%string \/ exists t, tail = (" • " +:+ t)%string)) /\
  (bullets_budget row = [] <->
   row !! "g_budget" = None \/
   (exists s, row !! "g_budget" = Some (NonNumeric s)) \/
   row !! "g_budget" = Some (Numeric NaN)) /\
  (bullets_budget row = [] ->
   generate_reason row = fallback \/
   (exists tail, generate_reason row = ("Strong on: " +:+ tail)%string) \/
   (exists tail, generate_reason row = ("Trade-offs: " +:+ tail)%string)) /\
  (generate_reason row = fallback <-> bullets_final row = []) /\
  (bullets_final row = [] <->
   bullets_budget row = [] /\ strong row = [] /\ weak row = []).
Proof.
  pose proof (budget_gate_cell row) as G.
  destruct (bullets_budget_bands row) as (B1 & B2 & B3).
  split; [|split; [|split; [|split; [|split; [|split]]]]].
  - intros g Hg H. rewrite Hg in G. rewrite G in B1.
    split; [exact (B1 H)|].
    destruct (bullets_final_budget_first row _ (B1 H)) as [bs E].
    exact (generate_reason_opening row _ _ bs E).
  - intros g Hg H1 H2. rewrite Hg in G. rewrite G in B2.
    split; [exact (B2 H1 H2)|].
    destruct (bullets_final_budget_first row _ (B2 H1 H2)) as [bs E].
    exact (generate_reason_opening row _ _ bs E).
  - intros g Hg H. rewrite Hg in G. rewrite G in B3.
    split; [exact (B3 H)|].
    destruct (bullets_final_budget_first row _ (B3 H)) as [bs E].
    exact (generate_reason_opening row _ _ bs E).
  - rewrite bullets_budget_nil, G.
    destruct (row !! "g_budget") as [[f|s]|].
    + split.
      * intros Hn. destruct f; try discriminate. right. right. reflexivity.
      * intros [H|[[s H]|H]]; try discriminate. injection H as ->. reflexivity.
    + split; [intros _; right; left; exists s; reflexivity|reflexivity].
    + split; [intros _; left; reflexivity|reflexivity].
  - apply generate_reason_without_budget.
  - apply generate_reason_no_clause.
  - apply bullets_final_nil.
Qed.

(** ** [ensure_columns] *)

Lemma lookup_foldl_ensure_col (norm : option cell -> float)
    (cols : list string) (row : gmap string cell) (k : string) :
  NoDup cols ->
  foldl (ensure_col norm) row cols !! k =
  if decide (k ∈ cols) then Some (Numeric (norm (row !! k))) else row !! k.
Proof.
  intros Hnd. revert row.
  induction Hnd as [|c cols Hc Hnd IH]; intros row; cbn [foldl].
  - rewrite decide_False by apply not_elem_of_nil. reflexivity.
  - rewrite IH. unfold ensure_col at 1 2.
    destruct (decide (k = c)) as [->|Hne].
    + rewrite decide_False by exact Hc.
      rewrite decide_True by apply list_elem_of_here.
      apply lookup_insert_eq.
    + rewrite lookup_insert_ne by congruence.
      destruct (decide (k ∈ cols)) as [Hin|Hnin].
      * rewrite decide_True by (apply list_elem_of_further, Hin). reflexivity.
      * rewrite decide_False; [reflexivity|].
        intros Hin. apply elem_of_cons in Hin. destruct Hin; congruence.
Qed.

Lemma NoDup_NUMERIC_COLS : NoDup NUMERIC_COLS.
Proof. apply (bool_decide_unpack (NoDup NUMERIC_COLS)). vm_compute. exact I. Qed.

Lemma NoDup_COMP_COLS : NoDup COMP_COLS.
Proof. apply (bool_decide_unpack (NoDup COMP_COLS)). vm_compute. exact I. Qed.

Lemma lookup_ensure_columns (row : gmap string cell) (k : string) :
  ensure_columns row !! k =
  if decide (k ∈ COMP_COLS) then Some (Numeric (norm_similarity (row !! k)))
  else if decide (k ∈ NUMERIC_COLS) then Some (Numeric (norm_numeric (row !! k)))
  else row !! k.
Proof.
  unfold ensure_columns.
  rewrite (lookup_foldl_ensure_col _ _ _ _ NoDup_COMP_COLS).
  rewrite (lookup_foldl_ensure_col _ _ _ _ NoDup_NUMERIC_COLS).
  destruct (decide (k ∈ COMP_COLS)) as [Hc|Hc]; [|reflexivity].
  rewrite decide_False; [reflexivity|].
  intros Hn. revert Hc Hn. unfold COMP_COLS, NUMERIC_COLS.
  rewrite !elem_of_cons, !elem_of_nil. intros Hc Hn.
  repeat (destruct Hc as [->|Hc]; [repeat (destruct Hn as [Hn|Hn];
            [discriminate Hn|]); exact Hn|]).
  exact Hc.
Qed.

Lemma series_clip_unit (x : float) :
  isnan x = false ->
  fle (Fin 0) (series_clip x (Fin 0) (Fin 1)) = true /\
  fle (series_clip x (Fin 0) (Fin 1)) (Fin 1) = true.
Proof.
  destruct x as [| |q|]; intros E; try discriminate; try (split; reflexivity).
  unfold series_clip, fge. cbn [isnan orb fle].
  destruct (Qle_bool 0 q) eqn:E0; destruct (Qle_bool q 1) eqn:E1;
    cbn [fle]; rewrite ?E0, ?E1; split; reflexivity.
Qed.

Lemma norm_similarity_unit (o : option cell) :
  isnan (norm_similarity o) = false /\
  fle (Fin 0) (norm_similarity o) = true /\
  fle (norm_similarity o) (Fin 1) = true.
Proof.
  unfold norm_similarity.
  assert (E : isnan (fillna (Fin 0.5) (to_numeric (default (Numeric (Fin 0.5)) o)))
              = false).
  { unfold fillna. destruct (isnan (to_numeric _)) eqn:E; [reflexivity|exact E]. }
  destruct (series_clip_unit _ E) as [H0 H1].
  split; [|split; assumption]. apply fle_not_nan in H0. apply H0.
Qed.

Lemma series_clip_in_range (x : float) :
  fle (Fin 0) x = true -> fle x (Fin 1) = true ->
  series_clip x (Fin 0) (Fin 1) = x.
Proof.
  intros H0 H1. unfold series_clip, fge. rewrite H0, H1, !orb_true_r.
  reflexivity.
Qed.

Lemma norm_similarity_idempotent (o : option cell) :
  norm_similarity (Some (Numeric (norm_similarity o))) = norm_similarity o.
Proof.
  destruct (norm_similarity_unit o) as (Hn & H0 & H1).
  unfold norm_similarity at 1. cbn [default from_option id to_numeric py_float].
  unfold fillna. rewrite Hn. apply series_clip_in_range; assumption.
Qed.

(** X12: after [ensure_columns] every similarity column is there and holds a
    number in [0,1], never not-a-number, whatever the raw cell was: 0.5 for
    a cell that is absent, does not convert or is not-a-number, the value
    itself for a value in [0,1], 0 for a lower and 1 for a higher one. *)
Theorem ensure_columns_similarity (row : gmap string cell) (c : string) :
  In c COMP_COLS ->
  exists v,
    ensure_columns row !! c = Some (Numeric v) /\
    isnan v = false /\ fle (Fin 0) v = true /\ fle v (Fin 1) = true /\
    (row !! c = None -> v = Fin 0.5) /\
    (forall s, row !! c = Some (NonNumeric s) -> v = Fin 0.5) /\
    (row !! c = Some (Numeric NaN) -> v = Fin 0.5) /\
    (forall x, row !! c = Some (Numeric x) ->
       fle (Fin 0) x = true -> fle x (Fin 1) = true -> v = x) /\
    (forall x, row !! c = Some (Numeric x) -> flt x (Fin 0) = true -> v = Fin 0) /\
    (forall x, row !! c = Some (Numeric x) -> fgt x (Fin 1) = true -> v = Fin 1).
Proof.
  intros Hc. exists (norm_similarity (row !! c)).
  rewrite lookup_ensure_columns, decide_True by (apply list_elem_of_In, Hc).
  destruct (norm_similarity_unit (row !! c)) as (Hn & H0 & H1).
  split; [reflexivity|]. split; [exact Hn|]. split; [exact H0|].
  split; [exact H1|].
  split; [intros ->; reflexivity|].
  split; [intros s ->; reflexivity|].
  split; [intros ->; reflexivity|].
  split; [|split].
  - intros x -> Hx0 Hx1. unfold norm_similarity.
    cbn [default from_option id to_numeric py_float]. unfold fillna.
    destruct (fle_not_nan _ _ Hx0) as [_ ->].
    apply series_clip_in_range; assumption.
  - intros x -> Hx. unfold norm_similarity.
    cbn [default from_option id to_numeric py_float]. unfold fillna.
    unfold flt in Hx. apply andb_prop in Hx. destruct Hx as [Hx1 Hx2].
    apply negb_true_iff in Hx2.
    destruct (fle_not_nan _ _ Hx1) as [-> _].
    unfold series_clip, fge. rewrite Hx2.
    destruct (fle_not_nan _ _ Hx1) as [-> _]. cbn [orb].
    rewrite (fle_trans x (Fin 0) (Fin 1) Hx1 eq_refl). reflexivity.
  - intros x -> Hx. unfold norm_similarity.
    cbn [default from_option id to_numeric py_float]. unfold fillna.
    unfold fgt, flt in Hx. apply andb_prop in Hx. destruct Hx as [Hx1 Hx2].
    apply negb_true_iff in Hx2.
    destruct (fle_not_nan _ _ Hx1) as [_ Hn'].
    rewrite Hn'. unfold series_clip, fge. rewrite Hn', Hx2. reflexivity.
Qed.

Lemma ensure_columns_similarity_witness :
  exists v,
    ensure_columns {[ "s_bed" := NonNumeric "n/a" ]} !! "s_bed" =
      Some (Numeric v) /\ v = Fin 0.5.
Proof.
  destruct (ensure_columns_similarity {[ "s_bed" := NonNumeric "n/a" ]} "s_bed")
    as (v & E & _ & _ & _ & _ & Hs & _).
  - cbn [COMP_COLS In]. right. left. reflexivity.
  - exists v. split; [exact E|]. apply (Hs "n/a"%string). reflexivity.
Defined.

Lemma column_of_COMP_COLS (name : string) :
  In name (map fst W_items) -> In (column_of name) COMP_COLS.
Proof.
  intros H. destruct component_columns as [<- _]. apply in_map, H.
Qed.

Lemma row_get_ensure_columns (row : gmap string cell) (c : string) :
  In c COMP_COLS ->
  row_get (ensure_columns row) c (Numeric (Fin 0.5)) =
  Numeric (norm_similarity (row !! c)).
Proof.
  intros Hc. unfold row_get.
  rewrite lookup_ensure_columns, decide_True by (apply list_elem_of_In, Hc).
  reflexivity.
Qed.

(** X13: on a record that went through [ensure_columns], whatever the raw
    record was, [clamp01] finds every similarity already clamped and
    changes nothing; so every contribution is at most the weight of its
    component and the contributions sum to at most the sum of the weights. *)
Theorem ensure_columns_contributions `{PandasSort} (row : gmap string cell) :
  (forall c, In c COMP_COLS ->
     feq (clamp01 (row_get (ensure_columns row) c (Numeric (Fin 0.5))))
         (norm_similarity (row !! c)) = true) /\
  (forall name v,
     In (name, v) (compute_weighted_contributions (ensure_columns row)) ->
     fle v (W !!! name) = true) /\
  fle (py_sum (map snd (compute_weighted_contributions (ensure_columns row))))
      (py_sum (map snd W_items)) = true.
Proof.
  split.
  - intros c Hc. rewrite (row_get_ensure_columns row c Hc).
    destruct (norm_similarity_unit (row !! c)) as (Hn & H0 & H1).
    unfold clamp01. cbn [safe_float py_float].
    destruct (norm_similarity (row !! c)) as [| |q|]; try discriminate.
    cbn [fle] in H0, H1. apply np_clip_in_range.
    + apply Qle_bool_iff. apply Qle_bool_iff in H0. lra.
    + apply Qle_bool_iff. apply Qle_bool_iff in H1. lra.
  - apply contributions_bounded. intros name Hname.
    rewrite (row_get_ensure_columns row _ (column_of_COMP_COLS name Hname)).
    cbn [safe_float py_float]. apply norm_similarity_unit.
Qed.

Lemma norm_numeric_idempotent (o : option cell) :
  norm_numeric (Some (Numeric (norm_numeric o))) = norm_numeric o.
Proof. reflexivity. Qed.

(** X14: [ensure_columns] is idempotent; it leaves every column outside
    its two lists as it was; it makes each numeric column a number,
    not-a-number where the raw cell was absent or did not convert; and the
    budget gate read by [generate_reason], hence the budget clause, is the
    same before and after. *)
Theorem ensure_columns_idempotent (row : gmap string cell) :
  ensure_columns (ensure_columns row) = ensure_columns row /\
  (forall k, ~ In k COMP_COLS -> ~ In k NUMERIC_COLS ->
     ensure_columns row !! k = row !! k) /\
  (forall c, In c NUMERIC_COLS ->
     ensure_columns row !! c =
     Some (Numeric (match row !! c with
                    | Some (Numeric f) => f
                    | _ => NaN
                    end))) /\
  budget_gate (ensure_columns row) = budget_gate row /\
  bullets_budget (ensure_columns row) = bullets_budget row.
Proof.
  assert (Hnum : forall c, In c NUMERIC_COLS ->
            ensure_columns row !! c = Some (Numeric (norm_numeric (row !! c)))).
  { intros c Hc. rewrite lookup_ensure_columns.
    rewrite (decide_True (P := c ∈ NUMERIC_COLS)) by (apply list_elem_of_In, Hc).
    destruct (decide (c ∈ COMP_COLS)) as [Hcc|]; [|reflexivity].
    exfalso. apply list_elem_of_In in Hcc. revert Hc Hcc.
    unfold NUMERIC_COLS, COMP_COLS. cbn [In]. intros Hc Hcc.
    repeat (destruct Hc as [<-|Hc];
            [repeat (destruct Hcc as [Hcc|Hcc]; [discriminate Hcc|]);
             exact Hcc|]).
    exact Hc. }
  assert (Hg : budget_gate (ensure_columns row) = budget_gate row).
  { unfold budget_gate, row_get.
    rewrite (Hnum "g_budget") by (unfold NUMERIC_COLS; cbn [In]; tauto).
    destruct (row !! "g_budget") as [[f|s]|]; reflexivity. }
  split; [|split; [|split; [|split]]].
  - apply map_eq. intros k. rewrite !lookup_ensure_columns.
    destruct (decide (k ∈ COMP_COLS)).
    + rewrite norm_similarity_idempotent. reflexivity.
    + destruct (decide (k ∈ NUMERIC_COLS)); reflexivity.
  - intros k Hc Hn. rewrite lookup_ensure_columns.
    rewrite decide_False by (rewrite list_elem_of_In; exact Hc).
    rewrite decide_False by (rewrite list_elem_of_In; exact Hn). reflexivity.
  - intros c Hc. rewrite (Hnum c Hc).
    destruct (row !! c) as [[f|s]|]; reflexivity.
  - exact Hg.
  - unfold bullets_budget. rewrite Hg. reflexivity.
Qed.

(** ** From the table to the displayed frame *)










(** ** [format_money] *)

Lemma py_round_near (q : Q) :
  inject_Z (py_round q) - q <= 1 # 2 /\ q - inject_Z (py_round q) <= 1 # 2.
Proof.
  unfold py_round. pose proof (Qfloor_le q) as Hlo. pose proof (Qlt_floor q) as Hhi.
  rewrite inject_Z_plus in Hhi. change (inject_Z 1) with 1 in Hhi.
  destruct (Qcompare (q - inject_Z (Qfloor q)) (1 # 2)) eqn:E.
  - apply Qeq_alt in E. destruct (Z.even (Qfloor q));
      rewrite ?inject_Z_plus; change (inject_Z 1) with 1; split; lra.
  - apply Qlt_alt in E. split; lra.
  - apply Qgt_alt in E. rewrite inject_Z_plus. change (inject_Z 1) with 1.
    split; lra.
Qed.

Lemma py_int_roundtrip (n : Z) : py_int_of_str (py_str_int n) = Some n.
Proof.
  unfold py_int_of_str, py_str_int.
  assert (E : NilZero.int_of_string (NilZero.string_of_int (Z.to_int n))
              = Some (Z.to_int n)).
  { destruct n as [|p|p]; [reflexivity| |]; apply NilZero.isi; cbn [Z.to_int];
      intros H;
      first [discriminate H
            | injection H as H; exact (Unsigned.to_uint_nonnil p H)]. }
  rewrite E. cbn [option_map]. f_equal. apply DecimalZ.of_to.
Qed.

Lemma group3_removed (f : ascii -> bool) (n : nat) :
  f ","%char = false ->
  forall l, (length l <= n)%nat -> List.filter f (group3 l) = List.filter f l.
Proof.
  intros Hf. induction n as [|n IH]; intros l Hl.
  - destruct l; [reflexivity|simpl in Hl; lia].
  - destruct l as [|a [|b [|c [|d rest]]]]; try reflexivity.
    change (group3 (a :: b :: c :: d :: rest))
      with (a :: b :: c :: ","%char :: group3 (d :: rest)).
    assert (Hlen : (length (d :: rest) <= n)%nat) by (simpl in Hl |- *; lia).
    pose proof (IH (d :: rest) Hlen) as IH'.
    cbn [List.filter app]. rewrite Hf.
    change (List.filter f (group3 (d :: rest)) =
            List.filter f (d :: rest)) in IH'.
    destruct (f a), (f b), (f c); rewrite ?IH'; reflexivity.
Qed.

Lemma uint_digits_no_comma (d : Decimal.uint) :
  remove_commas (NilEmpty.string_of_uint d) = NilEmpty.string_of_uint d.
Proof.
  unfold remove_commas.
  induction d; cbn [NilEmpty.string_of_uint list_ascii_of_string List.filter];
    try reflexivity;
    cbn [Ascii.eqb Bool.eqb negb andb string_of_list_ascii];
    f_equal; exact IHd.
Qed.

Lemma remove_with_commas_digits (d : string) :
  remove_commas (with_commas_digits d) = remove_commas d.
Proof.
  unfold remove_commas, with_commas_digits.
  rewrite list_ascii_of_string_of_list_ascii.
  rewrite List.filter_rev.
  rewrite (group3_removed _ _ eq_refl _ (le_n _)).
  rewrite <- List.filter_rev, rev_involutive. reflexivity.
Qed.

Lemma remove_with_commas (n : Z) :
  remove_commas (with_commas (py_str_int n)) = py_str_int n.
Proof.
  unfold py_str_int.
  assert (Hu : forall d,
            with_commas (NilZero.string_of_uint d)
            = with_commas_digits (NilZero.string_of_uint d)).
  { intros d. destruct d; reflexivity. }
  assert (Hn : forall d,
            remove_commas (NilZero.string_of_uint d) = NilZero.string_of_uint d).
  { intros d. destruct d; try reflexivity;
      apply (uint_digits_no_comma (_ d)). }
  destruct (Z.to_int n) as [d|d]; cbn [NilZero.string_of_int].
  - rewrite Hu, remove_with_commas_digits. apply Hn.
  - cbn [with_commas].
    change (remove_commas (String "-" (with_commas_digits (NilZero.string_of_uint d))))
      with (String "-" (remove_commas (with_commas_digits (NilZero.string_of_uint d)))).
    rewrite remove_with_commas_digits, Hn. reflexivity.
Qed.

(** X17: [format_money] gives the dash exactly for a value that does not
    convert or is not-a-number, and raises exactly for an infinity; for any
    other value it gives a numeral which, its commas taken out, reads back
    as the integer nearest to the value (at most one half away from it). *)
Theorem format_money_spec (x : cell) :
  (format_money x = Some "—"%string <-> isnan (safe_float x NaN) = true) /\
  (format_money x = None <->
   safe_float x NaN = PInf \/ safe_float x NaN = NInf) /\
  (forall q, safe_float x NaN = Fin q ->
     exists s,
       format_money x = Some s /\
       py_int_of_str (remove_commas s) = Some (py_round q) /\
       inject_Z (py_round q) - q <= 1 # 2 /\
       q - inject_Z (py_round q) <= 1 # 2).
Proof.
  unfold format_money.
  destruct (safe_float x NaN) as [| |q|]; cbn [isnan].
  - split; [split; reflexivity|]. split; [|intros q Hq; discriminate].
    split; [discriminate|]. intros [H|H]; discriminate.
  - split; [split; discriminate|]. split; [|intros q Hq; discriminate].
    split; [right; reflexivity|reflexivity].
  - split; [|split].
    + split; [|discriminate]. intros H. exfalso. injection H as H.
      pose proof (remove_with_commas (py_round q)) as Hr. rewrite H in Hr.
      pose proof (py_int_roundtrip (py_round q)) as Hp. rewrite <- Hr in Hp.
      vm_compute in Hp. discriminate Hp.
    + split; [discriminate|]. intros [H|H]; discriminate.
    + intros q' Hq. injection Hq as <-. eexists. split; [reflexivity|].
      rewrite remove_with_commas. split; [apply py_int_roundtrip|].
      apply py_round_near.
  - split; [split; discriminate|]. split; [|intros q Hq; discriminate].
    split; [left; reflexivity|reflexivity].
Qed.

(** ** [to_intish] *)

Lemma py_int_inject_Z (n : Z) : py_int (inject_Z n) = n.
Proof. unfold py_int. cbn [inject_Z Qnum Qden]. apply Z.quot_1_r. Qed.



(** ** Top-K keeps the best rows *)

Lemma StronglySorted_app_order {A : Type} (R : A -> A -> Prop)
    (l1 l2 : list A) :
  StronglySorted R (l1 ++ l2) ->
  forall a b, In a l1 -> In b l2 -> R a b.
Proof.
  induction l1 as [|x l1 IH]; intros Hs a b Ha Hb; [destruct Ha|].
  cbn [app] in Hs. apply StronglySorted_inv in Hs. destruct Hs as [Hs Hx].
  destruct Ha as [->|Ha].
  - rewrite List.Forall_forall in Hx. apply Hx, in_or_app. right. exact Hb.
  - exact (IH Hs a b Ha Hb).
Qed.

(** X19: with no search, the displayed rows are the best under the chosen
    sort: a displayed row stands before every row of the input that is not
    displayed, that is its key is at least (descending) or at most
    (ascending) the other's, or the other's key is not-a-number. *)
Theorem rank_top_k_best `{PandasSort} (filtered out : list record)
    (choice : sort_choice) (search_pid : string) (top_k : nat) :
  strip search_pid = EmptyString ->
  rank filtered choice search_pid top_k = Some out ->
  forall a b, In a out -> In b filtered -> ~ In b out ->
    precedes (snd (sort_col_map choice))
             (fst (sort_col_map choice) a) (fst (sort_col_map choice) b) = true.
Proof.
  intros Hs E a b Ha Hb Hnb.
  rewrite (rank_search_blank _ _ _ _ Hs) in E. injection E as <-.
  set (key := fst (sort_col_map choice)) in *.
  set (asc := snd (sort_col_map choice)) in *.
  pose proof (sort_by_sorted _ key asc filtered) as Hsorted.
  pose proof (sort_by_perm _ key asc filtered) as Hp.
  rewrite <- (firstn_skipn top_k (sort_by key asc filtered)) in Hsorted.
  apply (StronglySorted_app_order _ _ _ Hsorted a b Ha).
  apply (Permutation_in _ (Permutation_sym Hp)) in Hb.
  rewrite <- (firstn_skipn top_k (sort_by key asc filtered)) in Hb.
  apply in_app_or in Hb. destruct Hb as [Hb|Hb]; [|exact Hb].
  exfalso. apply Hnb. exact Hb.
Qed.

Lemma rank_top_k_best_witness :
  precedes false (Fin 90) (Fin 70) = true.
Proof.
  exact (@rank_top_k_best stable_sort example_frame _ MatchScore_desc "" 2
           eq_refl eq_refl
           (mk_record "101" (Fin 90) (Fin 1)) (mk_record "310" (Fin 70) (Fin 1))
           ltac:(vm_compute; left; reflexivity)
           ltac:(vm_compute; right; right; left; reflexivity)
           ltac:(vm_compute; intros [H|[H|H]]; [discriminate H|discriminate H|exact H])).
Defined.
